(** * Poros Protocol: identity, ranking and orchestration

    A shallow embedding of [backend/app/identity.py], [backend/app/identity_api.py],
    [backend/app/ranking.py], [backend/app/orchestrator.py] and the records of
    [backend/app/models.py], with the properties of the protocol core.

    Conventions.
    - A Python [str] is a [string] whose characters are code points below 256;
      [bytes] are a [string] of octets.
    - A Python [float] is a real number: arithmetic is exact, rounding is not modelled.
    - A Python [int] is an integer of [Z].
    - A call that may raise returns a [pyresult]: [Return v] or [Raise e]. *)

From Stdlib Require Import Reals Lra Lia ZArith NArith List String Ascii Bool.
From Stdlib Require Import Sorting.Permutation Sorting.Sorted DecimalString.
From stdpp Require Import base gmap sets list strings sorting.
Import ListNotations.

(** ** The Python runtime: exceptions and values *)

Module Py.

(** The exception classes the modelled code meets. [HTTPException] carries its
    status code and detail. All of them derive from [Exception]. *)
Inductive exn : Type :=
| InvalidSignature
| ValueError (msg : string)
| TypeError (msg : string)
| AttributeError (msg : string)
| KeyError (msg : string)
| BinasciiError (msg : string)
| UnicodeEncodeError
| HttpError (msg : string)
| DatabaseError (msg : string)
| HTTPException (status_code : Z) (detail : string).

Inductive pyresult (A : Type) : Type :=
| Return (a : A)
| Raise (e : exn).
Arguments Return {A} a.
Arguments Raise {A} e.

#[global] Instance pyresult_ret : MRet pyresult := fun A a => Return a.

#[global] Instance pyresult_bind : MBind pyresult := fun A B k m =>
  match m with
  | Return a => k a
  | Raise e => Raise e
  end.

(** Values held by a [dict] that came from, or is meant for, JSON. A [float] is
    carried by its [repr], which is all that [json.dumps] reads of it.
    [PObject] is any other object (a [set], [bytes], a class instance): the
    JSON encoder rejects it. A [dict] keeps its insertion order and has [str]
    keys. *)
#[warnings="-register-all"]
Inductive pyval : Type :=
| PNone
| PBool (b : bool)
| PInt (z : Z)
| PFloat (repr : string)
| PStr (s : string)
| PList (l : list pyval)
| PDict (d : list (string * pyval))
| PObject.

Definition pydict : Type := list (string * pyval).

(** [d.get(key)] as an option, [d.get(key, default)], and the comprehension
    [{k: v for k, v in d.items() if k != key}]. *)
Fixpoint dict_lookup (d : pydict) (key : string) : option pyval :=
  match d with
  | [] => None
  | (k, v) :: d' => if String.eqb k key then Some v else dict_lookup d' key
  end.

Definition dict_get (d : pydict) (key : string) (default : pyval) : pyval :=
  match dict_lookup d key with
  | Some v => v
  | None => default
  end.

Definition dict_without (d : pydict) (key : string) : pydict :=
  List.filter (fun kv => negb (String.eqb (fst kv) key)) d.

(** *** Strings *)

Definition code (c : ascii) : N := N_of_ascii c.

(** [str.lower] on code points below 256: A-Z and the Latin-1 capitals. *)
Definition lower_char (c : ascii) : ascii :=
  let n := code c in
  if ((65 <=? n) && (n <=? 90))%N then ascii_of_N (n + 32)
  else if ((192 <=? n) && (n <=? 222) && negb (n =? 215))%N then ascii_of_N (n + 32)
  else c.

Fixpoint lower (s : string) : string :=
  match s with
  | EmptyString => EmptyString
  | String c s' => String (lower_char c) (lower s')
  end.

(** [str.isspace] for one code point below 256. *)
Definition is_space (c : ascii) : bool :=
  let n := code c in
  (((9 <=? n) && (n <=? 13)) || ((28 <=? n) && (n <=? 32)) || (n =? 133) || (n =? 160))%N.

(** [s.split()]: the maximal runs of non-space characters. [cur] is the word
    being read, reversed. *)
Fixpoint split_ws_aux (s : string) (cur : list ascii) : list string :=
  match s with
  | EmptyString =>
      match cur with
      | [] => []
      | _ => [string_of_list_ascii (rev cur)]
      end
  | String c s' =>
      if is_space c then
        match cur with
        | [] => split_ws_aux s' []
        | _ => string_of_list_ascii (rev cur) :: split_ws_aux s' []
        end
      else split_ws_aux s' (c :: cur)
  end.

Definition split_ws (s : string) : list string := split_ws_aux s [].

(** [s.startswith(p)] and the substring test [w in s]. *)
Definition startswith (s p : string) : bool := String.prefix p s.

Fixpoint contains (s w : string) : bool :=
  if String.prefix w s then true
  else match s with
       | EmptyString => false
       | String _ s' => contains s' w
       end.

(** [s.split(sep)] for a one-character separator: never empty. [cur] is the
    piece being read, reversed. *)
Fixpoint split_on_aux (sep : ascii) (s : string) (cur : list ascii) : list string :=
  match s with
  | EmptyString => [string_of_list_ascii (rev cur)]
  | String c s' =>
      if Ascii.eqb c sep then string_of_list_ascii (rev cur) :: split_on_aux sep s' []
      else split_on_aux sep s' (c :: cur)
  end.

Definition split_on (sep : ascii) (s : string) : list string := split_on_aux sep s [].

(** [s.rstrip(c)] for a one-character set. *)
Fixpoint rstrip (c : ascii) (s : string) : string :=
  match s with
  | EmptyString => EmptyString
  | String a s' =>
      match rstrip c s' with
      | EmptyString => if Ascii.eqb a c then EmptyString else String a EmptyString
      | r => String a r
      end
  end.

(** [c * n] for a one-character string [c]. *)
Fixpoint repeat_char (c : ascii) (n : nat) : string :=
  match n with
  | O => EmptyString
  | S n' => String c (repeat_char c n')
  end.

(** [s.endswith(p)] *)
Definition string_rev (s : string) : string :=
  string_of_list_ascii (rev (list_ascii_of_string s)).

Definition endswith (s p : string) : bool :=
  String.prefix (string_rev p) (string_rev s).

(** [sep.join(parts)] *)
Fixpoint join (sep : string) (parts : list string) : string :=
  match parts with
  | [] => EmptyString
  | [p] => p
  | p :: rest => p ++ sep ++ join sep rest
  end.

(** [str(n)] for an [int]. *)
Definition str_of_int (n : Z) : string := NilZero.string_of_int (Z.to_int n).

(** The line feed. *)
Definition nl : string := String (ascii_of_N 10) EmptyString.

(** [str(e)]: the message of an exception. *)
Definition exn_str (e : exn) : string :=
  match e with
  | InvalidSignature => EmptyString
  | ValueError msg => msg
  | TypeError msg => msg
  | AttributeError msg => msg
  | KeyError msg => msg
  | BinasciiError msg => msg
  | UnicodeEncodeError => "codec can't encode character"
  | HttpError msg => msg
  | DatabaseError msg => msg
  | HTTPException status_code detail => detail
  end.

(** [l[:n]] for any integer [n]: a negative bound counts from the end. *)
Definition slice_to {A} (l : list A) (n : Z) : list A :=
  if (0 <=? n)%Z then firstn (Z.to_nat n) l
  else firstn (Z.to_nat (Z.of_nat (length l) + n)) l.

End Py.

Import Py.

(** ** [models.py]: the records *)

Module Models.

(** A row of [registered_agents]; the columns the core reads or writes. *)
Record RegisteredAgent : Type := {
  agent_id : string;
  owner_id : Z;
  agent_card : pydict;
  name : string;
  description : string;
  url : string;
  skills_tags : list string;
  is_active : bool;
  total_calls : Z;
  success_rate : R;
  avg_latency_ms : R
}.

(** A row of [orchestration_logs]. [results] holds the per-agent results of
    the orchestrator, whose type is a parameter here. *)
Record OrchestrationLog (Result : Type) : Type := {
  client_query : string * option (list string);
  skill_filter : option string;
  log_selected_agents : list string;
  log_results : list Result;
  log_success : bool;
  log_latency_ms : R
}.
Arguments client_query {Result} _.
Arguments skill_filter {Result} _.
Arguments log_selected_agents {Result} _.
Arguments log_results {Result} _.
Arguments log_success {Result} _.
Arguments log_latency_ms {Result} _.

(** The request body of [/orchestrate]. *)
Record OrchestrateRequest : Type := {
  query : string;
  skill_tags : option (list string);
  prefer_agent_ids : option (list string);
  max_agents : Z
}.

(** [max_agents: int = Field(default=3, le=10)]: the default and the only
    validation of the field. *)
Definition max_agents_default : Z := 3.

Definition max_agents_valid (n : Z) : bool := (n <=? 10)%Z.

End Models.

Import Models.

(** ** [ranking.py] *)

Module Ranking.

Local Open Scope R_scope.

Definition log10 (x : R) : R := ln x / ln 10.

(** [PerformanceRanking.score] *)
Definition PerformanceRanking_score
    (agent : RegisteredAgent) (query : string) (skill_tags : option (list string)) : R :=
  let score := 0 in
  let score := score + success_rate agent * 60 in
  let score :=
    if Rlt_dec 0 (avg_latency_ms agent) then
      let latency_score := Rmax 0 (30 - (avg_latency_ms agent / 5000) * 30) in
      score + latency_score
    else score in
  let score :=
    if (0 <? total_calls agent)%Z then
      let popularity_score := Rmin 10 (log10 (IZR (total_calls agent + 1)) * 2) in
      score + popularity_score
    else score in
  score.

Section Strategies.

(** [SemanticRanking.__init__] sets [use_embeddings] by whether
    [sentence_transformers] can be imported; the model's cosine similarity is
    that library's. *)
Variable use_embeddings : bool.
Variable cos_sim : string -> string -> R.

(** [SemanticRanking._score_with_embeddings] *)
Definition score_with_embeddings (agent : RegisteredAgent) (query : string) : R :=
  let similarity := cos_sim query (description agent) in
  similarity * 100.

(** [SemanticRanking._score_with_keywords] *)
Definition score_with_keywords (agent : RegisteredAgent) (query : string) : R :=
  let query_lower := lower query in
  let desc_lower := lower (description agent) in
  let name_lower := lower (name agent) in
  let score := 0 in
  let query_words : gset string := list_to_set (split_ws query_lower) in
  let desc_words : gset string := list_to_set (split_ws desc_lower) in
  let matching_words := query_words ∩ desc_words in
  let score :=
    if (0 <? size query_words)%nat then
      let overlap_ratio := INR (size matching_words) / INR (size query_words) in
      score + overlap_ratio * 70
    else score in
  let score :=
    if existsb (fun word => contains name_lower word) (elements query_words)
    then score + 30 else score in
  Rmin score 100.

(** [SemanticRanking.score] *)
Definition SemanticRanking_score
    (agent : RegisteredAgent) (query : string) (skill_tags : option (list string)) : R :=
  if use_embeddings then score_with_embeddings agent query
  else score_with_keywords agent query.

(** [tier_scores.get(tier, 0)]: a [list] or [dict] is unhashable and the
    lookup raises; any other key outside the table gives the default. *)
Definition tier_scores : list (string * R) :=
  [("enterprise"%string, 100); ("premium"%string, 70); ("pro"%string, 40); ("free"%string, 0)].

Fixpoint assoc_get {V} (table : list (string * V)) (key : string) (default : V) : V :=
  match table with
  | [] => default
  | (k, v) :: table' => if String.eqb k key then v else assoc_get table' key default
  end.

Definition tier_scores_get (tier : pyval) : pyresult R :=
  match tier with
  | PStr s => Return (assoc_get tier_scores s 0)
  | PList _ => Raise (TypeError "unhashable type: 'list'")
  | PDict _ => Raise (TypeError "unhashable type: 'dict'")
  | _ => Return 0
  end.

(** [agent.agent_card.get("metadata", {}).get("tier", "free")]: only a [dict]
    has [get]. *)
Definition agent_tier (agent : RegisteredAgent) : pyresult pyval :=
  match dict_get (agent_card agent) "metadata" (PDict []) with
  | PDict metadata => Return (dict_get metadata "tier" (PStr "free"))
  | _ => Raise (AttributeError "object has no attribute 'get'")
  end.

(** [RevenueRanking.score] *)
Definition RevenueRanking_score
    (agent : RegisteredAgent) (query : string) (skill_tags : option (list string))
    : pyresult R :=
  let score := 0 in
  tier ← agent_tier agent;
  tier_score ← tier_scores_get tier;
  let score := score + tier_score in
  let score := score + success_rate agent * 10 in
  mret score.

(** [HybridRanking.weights] *)
Definition weight_skill_match : R := 0.40.
Definition weight_performance : R := 0.25.
Definition weight_semantic : R := 0.20.
Definition weight_revenue : R := 0.10.
Definition weight_freshness : R := 0.05.

(** [HybridRanking._skill_match_score] *)
Definition skill_match_score (agent : RegisteredAgent) (skill_tags : option (list string)) : R :=
  match skill_tags with
  | None => 50
  | Some [] => 50
  | Some tags =>
      let agent_tags : gset string := list_to_set (skills_tags agent) in
      let query_tags : gset string := list_to_set tags in
      if (size query_tags =? 0)%nat then 50
      else
        let intersection := agent_tags ∩ query_tags in
        let union := agent_tags ∪ query_tags in
        if (size union =? 0)%nat then 0
        else
          let similarity := INR (size intersection) / INR (size union) in
          similarity * 100
  end.

(** [HybridRanking._freshness_score] *)
Definition freshness_score (agent : RegisteredAgent) : R := 50.

(** [HybridRanking.score] *)
Definition HybridRanking_score
    (agent : RegisteredAgent) (query : string) (skill_tags : option (list string))
    : pyresult R :=
  let skill_score := skill_match_score agent skill_tags in
  let performance_score := PerformanceRanking_score agent query skill_tags in
  let semantic_score := SemanticRanking_score agent query skill_tags in
  revenue_score ← RevenueRanking_score agent query skill_tags;
  let freshness := freshness_score agent in
  let total_score :=
    skill_score * weight_skill_match +
    performance_score * weight_performance +
    semantic_score * weight_semantic +
    revenue_score * weight_revenue +
    freshness * weight_freshness in
  mret total_score.

(** The strategy objects, and the method [score] each of them overrides. *)
Inductive RankingStrategy : Type :=
| PerformanceRanking
| SemanticRanking
| RevenueRanking
| HybridRanking.

Definition score (ranker : RankingStrategy)
    (agent : RegisteredAgent) (query : string) (skill_tags : option (list string))
    : pyresult R :=
  match ranker with
  | PerformanceRanking => Return (PerformanceRanking_score agent query skill_tags)
  | SemanticRanking => Return (SemanticRanking_score agent query skill_tags)
  | RevenueRanking => RevenueRanking_score agent query skill_tags
  | HybridRanking => HybridRanking_score agent query skill_tags
  end.

(** [list.sort(key=lambda x: x[1], reverse=True)]: a stable sort, descending
    by score. An element is inserted before the first one of the already
    sorted later elements whose score is not above its own. *)
Fixpoint insert_desc {A} (x : A * R) (l : list (A * R)) : list (A * R) :=
  match l with
  | [] => [x]
  | y :: l' => if Rlt_dec (snd x) (snd y) then y :: insert_desc x l' else x :: l
  end.

Definition sort_desc {A} (l : list (A * R)) : list (A * R) :=
  fold_right insert_desc [] l.

(** [rank_agents] *)
Definition strategies : list (string * RankingStrategy) :=
  [("performance"%string, PerformanceRanking);
   ("semantic"%string, SemanticRanking);
   ("revenue"%string, RevenueRanking);
   ("hybrid"%string, HybridRanking)].

Definition rank_agents
    (agents : list RegisteredAgent) (query : string)
    (skill_tags : option (list string)) (strategy : string)
    : pyresult (list RegisteredAgent) :=
  let ranker := assoc_get strategies strategy HybridRanking in
  scored_agents ← mapM (fun agent =>
                          s ← score ranker agent query skill_tags;
                          mret (agent, s)) agents;
  let scored_agents := sort_desc scored_agents in
  mret (map fst scored_agents).

End Strategies.

End Ranking.

(** ** [orchestrator.py] *)

Module Orchestrator.

Local Open Scope R_scope.

(** What [client.post(url, json=payload)] meets: a response with its status
    code and what [response.json()] gives, or a transport failure (timeout,
    refused connection) raised by the client. *)
Inductive HttpOutcome : Type :=
| Responded (status_code : Z) (json_body : pyresult pyval)
| TransportError (e : exn).

(** The surroundings of one request: the outcome and the measured latency of
    the i-th dispatched call, the outcome of the two [session.commit()] calls,
    and the wall-clock time of the whole request. *)
Record World : Type := {
  http_post : nat -> string -> string -> HttpOutcome;
  call_latency_ms : nat -> R;
  commit_metrics : pyresult unit;
  commit_log : pyresult unit;
  total_latency_ms : R
}.

(** The per-agent result dict. A key that a dict does not hold is [None]
    here: the dict built for an exception returned by [gather] has only
    ["status"] and ["error"]. *)
Record AgentResult : Type := {
  res_agent_id : option string;
  res_agent_name : option string;
  res_status : string;
  res_latency_ms : option R;
  res_result : option pyval;
  res_error : option string
}.

(** [response.raise_for_status()]: only a 2xx status passes. *)
Definition is_success (status_code : Z) : bool :=
  ((200 <=? status_code) && (status_code <=? 299))%Z.

(** [call_agent_http], as the i-th call of the request. The body of the [try]
    is [attempt]; [except Exception] turns what it raises into an error
    result. *)
Definition call_agent_http (w : World) (i : nat)
    (agent : RegisteredAgent) (query : string) : pyresult AgentResult :=
  let attempt : pyresult AgentResult :=
    let url := url agent in
    let url := if endswith url "/query" then url else (url ++ "/query")%string in
    match http_post w i url query with
    | TransportError e => Raise e
    | Responded status_code json_body =>
        if is_success status_code then
          data ← json_body;
          let latency := call_latency_ms w i in
          mret {| res_agent_id := Some (agent_id agent);
                  res_agent_name := Some (name agent);
                  res_status := "success";
                  res_latency_ms := Some latency;
                  res_result := Some data;
                  res_error := None |}
        else Raise (HttpError "Client or server error response")
    end in
  match attempt with
  | Return r => Return r
  | Raise e =>
      Return {| res_agent_id := Some (agent_id agent);
                res_agent_name := Some (name agent);
                res_status := "error";
                res_latency_ms := Some 0;
                res_result := None;
                res_error := Some (exn_str e) |}
  end.

(** [asyncio.gather] with [return_exceptions=True] over the selected agents:
    every call runs, and what a call raises is returned in its place. *)
Fixpoint gather_from (w : World) (i : nat)
    (agents : list RegisteredAgent) (query : string) : list (pyresult AgentResult) :=
  match agents with
  | [] => []
  | agent :: agents' => call_agent_http w i agent query :: gather_from w (S i) agents' query
  end.

Definition gather (w : World) (agents : list RegisteredAgent) (query : string)
    : list (pyresult AgentResult) :=
  gather_from w 0 agents query.

(** The loop "Handle exceptions". *)
Definition format_result (result : pyresult AgentResult) : AgentResult :=
  match result with
  | Raise e =>
      {| res_agent_id := None; res_agent_name := None;
         res_status := "error"; res_latency_ms := None;
         res_result := None; res_error := Some (exn_str e) |}
  | Return r => r
  end.

(** Step 1: the skill filter. *)
Definition has_any_tag (tags : list string) (a : RegisteredAgent) : bool :=
  existsb (fun tag => existsb (String.eqb tag) (skills_tags a)) tags.

Definition discover (all_agents : list RegisteredAgent) (request : OrchestrateRequest)
    : list RegisteredAgent :=
  match skill_tags request with
  | Some ((_ :: _) as tags) => List.filter (has_any_tag tags) all_agents
  | _ => all_agents
  end.

(** [a in agents]: rows are compared by their unique [agent_id]. *)
Definition row_in (a : RegisteredAgent) (agents : list RegisteredAgent) : bool :=
  existsb (fun b => String.eqb (agent_id a) (agent_id b)) agents.

(** Step 3: the selection. *)
Definition select_agents (matching_agents ranked_agents : list RegisteredAgent)
    (request : OrchestrateRequest) : list RegisteredAgent :=
  let selected_agents := slice_to ranked_agents (max_agents request) in
  match prefer_agent_ids request with
  | Some ((_ :: _) as ids) =>
      let preferred :=
        List.filter (fun a => existsb (String.eqb (agent_id a)) ids) matching_agents in
      let selected_agents :=
        preferred ++ List.filter (fun a => negb (row_in a preferred)) selected_agents in
      slice_to selected_agents (max_agents request)
  | _ => selected_agents
  end.

(** Step 5: the body of the metrics loop for one agent and its result. Every
    formatted result is a dict, so the [isinstance] test of the loop holds. *)
Definition update_metrics (agent : RegisteredAgent) (result : AgentResult) : RegisteredAgent :=
  let total_calls' := (total_calls agent + 1)%Z in
  let success := if String.eqb (res_status result) "success" then 1 else 0 in
  let success_rate' := (success_rate agent * 0.9) + (success * 0.1) in
  let avg_latency_ms' :=
    match res_latency_ms result with
    | Some latency_ms =>
        if Rlt_dec 0 latency_ms
        then (avg_latency_ms agent * 0.9) + (latency_ms * 0.1)
        else avg_latency_ms agent
    | None => avg_latency_ms agent
    end in
  {| agent_id := agent_id agent; owner_id := owner_id agent;
     agent_card := agent_card agent; name := name agent;
     description := description agent; url := url agent;
     skills_tags := skills_tags agent; is_active := is_active agent;
     total_calls := total_calls';
     success_rate := success_rate';
     avg_latency_ms := avg_latency_ms' |}.

(** [zip(selected_agents, formatted_results)] through the loop. *)
Fixpoint update_all (agents : list RegisteredAgent) (results : list AgentResult)
    : list RegisteredAgent :=
  match agents, results with
  | agent :: agents', result :: results' =>
      update_metrics agent result :: update_all agents' results'
  | _, _ => []
  end.

(** The store: the rows of [registered_agents] and of [orchestration_logs]. *)
Record Db : Type := {
  rows : list RegisteredAgent;
  logs : list (OrchestrationLog AgentResult)
}.

(** The rows after the commit: a row whose object the loop changed holds the
    new values. *)
Fixpoint find_row (a : RegisteredAgent) (updated : list RegisteredAgent)
    : option RegisteredAgent :=
  match updated with
  | [] => None
  | b :: updated' =>
      if String.eqb (agent_id a) (agent_id b) then Some b else find_row a updated'
  end.

Definition write_back (updated : list RegisteredAgent) (table : list RegisteredAgent)
    : list RegisteredAgent :=
  map (fun a => match find_row a updated with Some b => b | None => a end) table.

(** [_generate_summary]. No result dict has the key ["artifacts"], so the
    inner loop over [result.get("artifacts", [])] has nothing to add. *)
Definition generate_summary (query : string) (results : list AgentResult) : string :=
  let successful := List.filter (fun r => String.eqb (res_status r) "success") results in
  match successful with
  | [] => "No agents successfully responded to your query."%string
  | _ =>
      let summary_parts := [("Query: " ++ query ++ nl)%string] in
      let summary_parts := summary_parts ++
        [("Agents responded: " ++ str_of_int (Z.of_nat (length successful)) ++ "/"
           ++ str_of_int (Z.of_nat (length results)) ++ nl)%string] in
      let summary_parts := summary_parts ++
        map (fun r =>
               let agent_name :=
                 match res_agent_name r with Some n => n | None => "Unknown"%string end in
               (nl ++ agent_name ++ ":")%string) successful in
      join nl summary_parts
  end.

(** [[skill["name"] for skill in a.agent_card.get("skills", [])]]: the value
    must be iterable and each item a dict with the key. *)
Definition skill_name (skill : pyval) : pyresult pyval :=
  match skill with
  | PDict d =>
      match dict_lookup d "name" with
      | Some v => Return v
      | None => Raise (KeyError "'name'")
      end
  | PStr _ => Raise (TypeError "string indices must be integers")
  | PList _ => Raise (TypeError "list indices must be integers or slices")
  | _ => Raise (TypeError "object is not subscriptable")
  end.

Definition skill_names (card : pydict) : pyresult (list pyval) :=
  match dict_get card "skills" (PList []) with
  | PList skills => mapM skill_name skills
  | PDict d => mapM (fun kv => skill_name (PStr (fst kv))) d
  | PStr s => mapM (fun c => skill_name (PStr (String c EmptyString))) (list_ascii_of_string s)
  | _ => Raise (TypeError "object is not iterable")
  end.

Record SelectedAgent : Type := {
  sel_agent_id : string;
  sel_name : string;
  sel_url : string;
  sel_skills : list pyval
}.

Record OrchestrateResponse : Type := {
  resp_query : string;
  resp_selected_agents : list SelectedAgent;
  resp_results : list AgentResult;
  resp_summary : string;
  resp_latency_ms : R
}.

Definition selected_agent_entry (a : RegisteredAgent) : pyresult SelectedAgent :=
  skills ← skill_names (agent_card a);
  mret {| sel_agent_id := agent_id a; sel_name := name a;
          sel_url := url a; sel_skills := skills |}.

Section Orchestrate.

Variable use_embeddings : bool.
Variable cos_sim : string -> string -> R.

(** [orchestrate]: the response or the exception that leaves the handler, and
    the store afterwards. *)
Definition orchestrate (w : World) (request : OrchestrateRequest) (db : Db)
    : pyresult OrchestrateResponse * Db :=
  (* Step 1: discover *)
  let all_agents := List.filter is_active (rows db) in
  let matching_agents := discover all_agents request in
  match matching_agents with
  | [] => (Raise (HTTPException 404 "No agents found matching criteria"), db)
  | _ =>
      (* Step 2: rank *)
      match Ranking.rank_agents use_embeddings cos_sim
              matching_agents (query request) (skill_tags request) "hybrid" with
      | Raise e => (Raise e, db)
      | Return ranked_agents =>
          (* Step 3: select *)
          let selected_agents := select_agents matching_agents ranked_agents request in
          (* Step 4: call *)
          let results := gather w selected_agents (query request) in
          let formatted_results := map format_result results in
          (* Step 5: metrics *)
          let updated := update_all selected_agents formatted_results in
          match commit_metrics w with
          | Raise e => (Raise e, db)
          | Return _ =>
              let db1 := {| rows := write_back updated (rows db); logs := logs db |} in
              let total_latency := total_latency_ms w in
              (* Step 6: log *)
              let log :=
                {| client_query := (query request, skill_tags request);
                   skill_filter :=
                     match skill_tags request with
                     | Some ((_ :: _) as tags) => Some (join "," tags)
                     | _ => None
                     end;
                   log_selected_agents := map agent_id selected_agents;
                   log_results := formatted_results;
                   log_success :=
                     forallb (fun r => String.eqb (res_status r) "success") formatted_results;
                   log_latency_ms := total_latency |} in
              match commit_log w with
              | Raise e => (Raise e, db1)
              | Return _ =>
                  let db2 := {| rows := rows db1; logs := logs db1 ++ [log] |} in
                  (* Step 7: respond *)
                  match mapM selected_agent_entry selected_agents with
                  | Raise e => (Raise e, db2)
                  | Return entries =>
                      (Return {| resp_query := query request;
                                 resp_selected_agents := entries;
                                 resp_results := formatted_results;
                                 resp_summary :=
                                   generate_summary (query request) formatted_results;
                                 resp_latency_ms := total_latency |},
                       db2)
                  end
              end
          end
      end
  end.

End Orchestrate.

End Orchestrator.

(** ** The libraries under [identity.py] *)

(** [base64] of the standard library. The encoder is RFC 4648 and is written
    out; the decoder is [binascii.a2b_base64], a parameter of the identity
    module, and the Python wrappers around both are as in [base64.py]. *)
Module Base64.

Local Open Scope N_scope.

Definition alphabet : string :=
  "ABCDEFGHIJKLMNOPQRSTUVWXYZabcdefghijklmnopqrstuvwxyz0123456789+/".

Definition b64_char (n : N) : ascii :=
  match String.get (N.to_nat n) alphabet with
  | Some c => c
  | None => "A"%char
  end.

Definition pad : ascii := "="%char.

(** [binascii.b2a_base64(data, newline=False)]: three octets give four
    characters, and a last group of one or two octets is padded. *)
Fixpoint b2a_base64 (data : string) : string :=
  match data with
  | EmptyString => EmptyString
  | String a EmptyString =>
      let a := code a in
      String (b64_char (a / 4))
        (String (b64_char ((a mod 4) * 16))
           (String pad (String pad EmptyString)))
  | String a (String b EmptyString) =>
      let a := code a in
      let b := code b in
      String (b64_char (a / 4))
        (String (b64_char ((a mod 4) * 16 + b / 16))
           (String (b64_char ((b mod 16) * 4))
              (String pad EmptyString)))
  | String a (String b (String c rest)) =>
      let a := code a in
      let b := code b in
      let c := code c in
      String (b64_char (a / 4))
        (String (b64_char ((a mod 4) * 16 + b / 16))
           (String (b64_char ((b mod 16) * 4 + c / 64))
              (String (b64_char (c mod 64)) (b2a_base64 rest))))
  end.

(** [bytes.translate] with the two tables of [base64.py]. *)
Fixpoint translate (from1 to1 from2 to2 : ascii) (s : string) : string :=
  match s with
  | EmptyString => EmptyString
  | String c s' =>
      String (if Ascii.eqb c from1 then to1 else if Ascii.eqb c from2 then to2 else c)
             (translate from1 to1 from2 to2 s')
  end.

Definition urlsafe_encode_translation : string -> string := translate "+" "-" "/" "_".
Definition urlsafe_decode_translation : string -> string := translate "-" "+" "_" "/".

Definition b64encode (s : string) : string := b2a_base64 s.

Definition urlsafe_b64encode (s : string) : string :=
  urlsafe_encode_translation (b64encode s).

(** [_bytes_from_decode_data]: a [str] argument must be ASCII. *)
Fixpoint is_ascii (s : string) : bool :=
  match s with
  | EmptyString => true
  | String c s' => (code c <? 128) && is_ascii s'
  end.

Definition bytes_from_decode_data (s : string) : pyresult string :=
  if is_ascii s then Return s
  else Raise (ValueError "string argument should contain only ASCII characters").

Section Decoder.

Variable a2b_base64 : string -> pyresult string.

Definition b64decode (s : string) : pyresult string :=
  s ← bytes_from_decode_data s;
  a2b_base64 s.

Definition urlsafe_b64decode (s : string) : pyresult string :=
  s ← bytes_from_decode_data s;
  let s := urlsafe_decode_translation s in
  b64decode s.

End Decoder.

(** A decoder of padded base64, for running the model: it takes groups of
    four characters, the last of which may end in one or two pads, and
    rejects anything else. *)
Fixpoint b64_index_from (c : ascii) (table : string) (i : N) : option N :=
  match table with
  | EmptyString => None
  | String t table' => if Ascii.eqb c t then Some i else b64_index_from c table' (i + 1)
  end.

Definition b64_index (c : ascii) : option N := b64_index_from c alphabet 0.

Definition octet (n : N) : ascii := ascii_of_N (n mod 256).

Fixpoint strict_a2b_base64 (s : string) : pyresult string :=
  match s with
  | EmptyString => Return EmptyString
  | String c0 (String c1 (String c2 (String c3 rest))) =>
      match b64_index c0, b64_index c1 with
      | Some n0, Some n1 =>
          let o0 := octet (n0 * 4 + n1 / 16) in
          if Ascii.eqb c2 pad then
            if Ascii.eqb c3 pad && String.eqb rest EmptyString
            then Return (String o0 EmptyString)
            else Raise (BinasciiError "Incorrect padding")
          else
            match b64_index c2 with
            | Some n2 =>
                let o1 := octet ((n1 mod 16) * 16 + n2 / 4) in
                if Ascii.eqb c3 pad then
                  if String.eqb rest EmptyString
                  then Return (String o0 (String o1 EmptyString))
                  else Raise (BinasciiError "Excess data after padding")
                else
                  match b64_index c3 with
                  | Some n3 =>
                      let o2 := octet ((n2 mod 4) * 64 + n3) in
                      match strict_a2b_base64 rest with
                      | Return r => Return (String o0 (String o1 (String o2 r)))
                      | Raise e => Raise e
                      end
                  | None => Raise (BinasciiError "Only base64 data is allowed")
                  end
            | None => Raise (BinasciiError "Only base64 data is allowed")
            end
      | _, _ => Raise (BinasciiError "Only base64 data is allowed")
      end
  | _ => Raise (BinasciiError "Incorrect padding")
  end.

End Base64.

(** [json.dumps(obj, sort_keys=True, separators=(',', ':'))] with the default
    [ensure_ascii=True]. *)
Module Json.

Definition dquote : ascii := ascii_of_N 34.
Definition backslash : ascii := ascii_of_N 92.

Definition hex_digit (n : N) : ascii :=
  match String.get (N.to_nat n) "0123456789abcdef" with
  | Some c => c
  | None => "0"%char
  end.

(** [ESCAPE_ASCII]: the quote, the backslash and every character outside
    space..tilde are replaced. *)
Definition escape_char (c : ascii) : string :=
  let n := code c in
  if (n =? 34)%N then String backslash (String dquote EmptyString)
  else if (n =? 92)%N then String backslash (String backslash EmptyString)
  else if (n =? 10)%N then String backslash "n"
  else if (n =? 13)%N then String backslash "r"
  else if (n =? 9)%N then String backslash "t"
  else if (n =? 8)%N then String backslash "b"
  else if (n =? 12)%N then String backslash "f"
  else if ((32 <=? n) && (n <=? 126))%N then String c EmptyString
  else String backslash
         (String "u" (String "0" (String "0"
            (String (hex_digit (n / 16)) (String (hex_digit (n mod 16)) EmptyString))))).

Fixpoint escape (s : string) : string :=
  match s with
  | EmptyString => EmptyString
  | String c s' => (escape_char c ++ escape s')%string
  end.

Definition encode_str (s : string) : string :=
  (String dquote (escape s) ++ String dquote EmptyString)%string.

(** [sorted(dct.items())]: keys are distinct, so the items are ordered by
    key; the sort is stable. *)
Fixpoint insert_item {V} (x : string * V) (l : list (string * V)) : list (string * V) :=
  match l with
  | [] => [x]
  | y :: l' => if String.ltb (fst y) (fst x) then y :: insert_item x l' else x :: l
  end.

Definition sort_items {V} (l : list (string * V)) : list (string * V) :=
  fold_right insert_item [] l.

(** The encoder. The values of a dict are encoded and then ordered by key,
    which gives the text that encoding them in key order gives. *)
Fixpoint encode (v : pyval) : pyresult string :=
  match v with
  | PNone => Return "null"%string
  | PBool true => Return "true"%string
  | PBool false => Return "false"%string
  | PInt z => Return (str_of_int z)
  | PFloat repr => Return repr
  | PStr s => Return (encode_str s)
  | PList l =>
      items ← (fix encode_list (l : list pyval) : pyresult (list string) :=
                 match l with
                 | [] => Return []
                 | x :: l' =>
                     match encode x with
                     | Raise e => Raise e
                     | Return sx =>
                         match encode_list l' with
                         | Raise e => Raise e
                         | Return r => Return (sx :: r)
                         end
                     end
                 end) l;
      mret ("[" ++ join "," items ++ "]")%string
  | PDict d =>
      items ← (fix encode_items (d : list (string * pyval))
                 : pyresult (list (string * string)) :=
                 match d with
                 | [] => Return []
                 | (k, x) :: d' =>
                     match encode x with
                     | Raise e => Raise e
                     | Return sx =>
                         match encode_items d' with
                         | Raise e => Raise e
                         | Return r => Return ((k, sx) :: r)
                         end
                     end
                 end) d;
      mret ("{" ++ join "," (map (fun kv => encode_str (fst kv) ++ ":" ++ snd kv)
                                 (sort_items items)) ++ "}")%string
  | PObject => Raise (TypeError "Object is not JSON serializable")
  end.

Definition dumps_canonical (obj : pydict) : pyresult string := encode (PDict obj).

(** [str.encode('utf-8')] for code points below 256. *)
Fixpoint utf8_encode (s : string) : string :=
  match s with
  | EmptyString => EmptyString
  | String c s' =>
      let n := code c in
      if (n <? 128)%N then String c (utf8_encode s')
      else String (ascii_of_N (192 + n / 64))
             (String (ascii_of_N (128 + n mod 64)) (utf8_encode s'))
  end.

End Json.

(** The Ed25519 interface of [cryptography] that [identity.py] calls. *)
Module Crypto.

(** What [serialization.load_pem_private_key] gives: a key of some algorithm. *)
Inductive LoadedKey (PrivateKey : Type) : Type :=
| Ed25519Key (k : PrivateKey)
| OtherKey.
Arguments Ed25519Key {PrivateKey} k.
Arguments OtherKey {PrivateKey}.

Record Library : Type := {
  PrivateKey : Type;
  PublicKey : Type;
  (** [private_key.public_key()] *)
  public_key : PrivateKey -> PublicKey;
  (** [public_key.public_bytes(Raw, Raw)] *)
  public_bytes : PublicKey -> string;
  (** [Ed25519PublicKey.from_public_bytes] *)
  from_public_bytes : string -> pyresult PublicKey;
  (** [private_key.private_bytes(PEM, PKCS8, NoEncryption()).decode('utf-8')] *)
  private_pem : PrivateKey -> string;
  (** [serialization.load_pem_private_key(data, password=None)] *)
  load_pem_private_key : string -> pyresult (LoadedKey PrivateKey);
  (** [private_key.sign(message)] *)
  sign : PrivateKey -> string -> string;
  (** [public_key.verify(signature, message)]: raises [InvalidSignature] *)
  verify : PublicKey -> string -> string -> pyresult unit;
  (** [binascii.a2b_base64] *)
  a2b_base64 : string -> pyresult string
}.

(** What the documentation of the libraries promises and the identity module
    relies on. *)
Record Laws (lib : Library) : Prop := {
  load_private_pem :
    forall sk, load_pem_private_key lib (Json.utf8_encode (private_pem lib sk))
               = Return (Ed25519Key sk);
  from_public_bytes_raw :
    forall pk, from_public_bytes lib (public_bytes lib pk) = Return pk;
  verify_sign :
    forall sk message,
      verify lib (public_key lib sk) (sign lib sk message) message = Return tt;
  a2b_b2a :
    forall data, a2b_base64 lib (Base64.b2a_base64 data) = Return data
}.

(** A transparent scheme that satisfies the laws, for running the model: the
    public key is the private key, a signature is the key followed by the
    message, and the PEM text is the base64 of the key. *)
Definition transparent : Library := {|
  PrivateKey := string;
  PublicKey := string;
  public_key := fun sk => sk;
  public_bytes := fun pk => pk;
  from_public_bytes := fun data => Return data;
  private_pem := fun sk => Base64.b2a_base64 sk;
  load_pem_private_key := fun data =>
    match Base64.strict_a2b_base64 data with
    | Return sk => Return (Ed25519Key sk)
    | Raise _ => Raise (ValueError "Could not deserialize key data")
    end;
  sign := fun sk message => (sk ++ message)%string;
  verify := fun pk signature message =>
    if String.eqb signature (pk ++ message)%string then Return tt
    else Raise InvalidSignature;
  a2b_base64 := Base64.strict_a2b_base64
|}.

End Crypto.

(** ** [identity.py] *)

Module Identity.

Import Crypto.

Section WithLibrary.

Variable lib : Library.

Definition did_prefix : string := "did:poros:ed25519:".

(** [generate_keypair], from the key that [Ed25519PrivateKey.generate()]
    draws. Base64 text is ASCII, so its [decode('utf-8')] is the same string. *)
Definition generate_keypair (private_key : PrivateKey lib) : string * string :=
  let public_key := public_key lib private_key in
  let public_bytes := public_bytes lib public_key in
  let public_b64 := rstrip "=" (Base64.urlsafe_b64encode public_bytes) in
  let did := (did_prefix ++ public_b64)%string in
  let private_pem := private_pem lib private_key in
  (did, private_pem).

(** [sign_agent_card] *)
Definition sign_agent_card (agent_card_dict : pydict) (private_key_pem : string)
    : pyresult string :=
  canonical_json ← Json.dumps_canonical agent_card_dict;
  let message := Json.utf8_encode canonical_json in
  loaded ← load_pem_private_key lib (Json.utf8_encode private_key_pem);
  match loaded with
  | Ed25519Key private_key =>
      let signature := sign lib private_key message in
      mret (Base64.b64encode signature)
  | OtherKey => Raise (TypeError "sign() missing required positional arguments")
  end.

(** The body of the [try] of [verify_agent_card]. *)
Definition verify_agent_card_try
    (agent_card_dict : pydict) (signature_b64 : string) (did : string)
    : pyresult bool :=
  if negb (startswith did did_prefix) then Return false
  else
    let public_key_b64 := List.last (split_on ":" did) EmptyString in
    let padding := (4 - Z.of_nat (String.length public_key_b64) mod 4)%Z in
    let public_key_b64 :=
      if (padding =? 4)%Z then public_key_b64
      else (public_key_b64 ++ repeat_char "=" (Z.to_nat padding))%string in
    public_bytes ← Base64.urlsafe_b64decode (a2b_base64 lib) public_key_b64;
    public_key ← from_public_bytes lib public_bytes;
    canonical_json ← Json.dumps_canonical agent_card_dict;
    let message := Json.utf8_encode canonical_json in
    signature ← Base64.b64decode (a2b_base64 lib) signature_b64;
    _ ← verify lib public_key signature message;
    mret true.

(** [verify_agent_card]: the two [except] clauses. *)
Definition verify_agent_card
    (agent_card_dict : pydict) (signature_b64 : string) (did : string)
    : pyresult bool :=
  match verify_agent_card_try agent_card_dict signature_b64 did with
  | Return b => Return b
  | Raise InvalidSignature => Return false
  | Raise _ => Return false
  end.

(** [extract_public_key_from_did] *)
Definition extract_public_key_from_did (did : string) : pyresult string :=
  if negb (startswith did did_prefix) then Raise (ValueError "Invalid Poros DID format")
  else Return (List.last (split_on ":" did) EmptyString).

End WithLibrary.

End Identity.

(** ** [identity_api.py] *)

Module IdentityApi.

Import Crypto.

Section WithLibrary.

Variable lib : Library.

(** [{**agent_card_unsigned, "signature": signature}] *)
Definition with_signature (unsigned : pydict) (signature : string) : pydict :=
  unsigned ++ [("signature"%string, PStr signature)].

(** The endpoint [sign_agent_card]: the signature and the signed card. *)
Definition sign_agent_card (agent_card : pydict) (private_key_pem : string)
    : pyresult (string * pydict) :=
  let attempt :=
    let agent_card_unsigned := dict_without agent_card "signature" in
    signature ← Identity.sign_agent_card lib agent_card_unsigned private_key_pem;
    let signed_card := with_signature agent_card_unsigned signature in
    mret (signature, signed_card) in
  match attempt with
  | Return r => Return r
  | Raise e => Raise (HTTPException 400 ("Failed to sign AgentCard: " ++ exn_str e))
  end.

(** The endpoint [verify_agent_card]: the field [valid] of the response. *)
Definition verify_agent_card (agent_card : pydict) (signature did : string)
    : pyresult bool :=
  let agent_card_unsigned := dict_without agent_card "signature" in
  Identity.verify_agent_card lib agent_card_unsigned signature did.

End WithLibrary.

End IdentityApi.

(** ** The formulas of the specification, and data for examples *)

Module Spec.

Import Ranking.
Local Open Scope R_scope.

(** An agent record from its metrics and card; the other columns do not
    enter a score. *)
Definition agent_of (id : string) (card : pydict) (tags : list string)
    (calls : Z) (rate latency : R) : RegisteredAgent :=
  {| agent_id := id; owner_id := 1; agent_card := card;
     name := id; description := "an agent"; url := "http://agent";
     skills_tags := tags; is_active := true;
     total_calls := calls; success_rate := rate; avg_latency_ms := latency |}.

(** The latency points the code gives: none without a recorded latency. *)
Definition latency_points (latency : R) : R :=
  if Rlt_dec 0 latency then Rmax 0 (30 - (latency / 5000) * 30) else 0.

(** The formula of the specification for the two terms. *)
Definition latency_score_spec (latency : R) : R := Rmax 0 (30 - (latency / 5000) * 30).

Definition popularity_score_spec (calls : Z) : R := Rmin 10 (log10 (IZR (calls + 1)) * 2).

Definition performance_spec (agent : RegisteredAgent) : R :=
  success_rate agent * 60 + latency_score_spec (avg_latency_ms agent)
  + popularity_score_spec (total_calls agent).

(** The key segment of a DID as [verify_agent_card] pads it. *)
Definition padded_key_segment (did : string) : string :=
  let public_key_b64 := List.last (split_on ":" did) EmptyString in
  let padding := (4 - Z.of_nat (String.length public_key_b64) mod 4)%Z in
  if (padding =? 4)%Z then public_key_b64
  else (public_key_b64 ++ repeat_char "=" (Z.to_nat padding))%string.

(** Every character of [s] satisfies [p]. *)
Fixpoint all_chars (p : ascii -> bool) (s : string) : bool :=
  match s with
  | EmptyString => true
  | String c s' => p c && all_chars p s'
  end.

(** The characters of the two base64 alphabets. *)
Definition is_b64_char (c : ascii) : bool :=
  match Base64.b64_index c with Some _ => true | None => false end.

Definition is_urlsafe_char (c : ascii) : bool :=
  is_b64_char c && negb (Ascii.eqb c "+") && negb (Ascii.eqb c "/")
  || Ascii.eqb c "-" || Ascii.eqb c "_".

(** A character of the alphabet is ASCII, is not the pad, and its url-safe
    form is neither the pad nor a colon and translates back. *)
Definition char_facts (c : ascii) : bool :=
  (code c <? 128)%N && negb (Ascii.eqb c Base64.pad) && is_b64_char c
  && (let u := if Ascii.eqb c "+" then "-"%char
               else if Ascii.eqb c "/" then "_"%char else c in
      negb (Ascii.eqb u Base64.pad) && negb (Ascii.eqb u ":") && (code u <? 128)%N
      && Ascii.eqb (if Ascii.eqb u "-" then "+"%char
                    else if Ascii.eqb u "_" then "/"%char else u) c).

(** A url-safe character that is neither the pad nor a colon. *)
Definition url_ok (u : ascii) : bool :=
  negb (Ascii.eqb u Base64.pad) && negb (Ascii.eqb u ":") && (code u <? 128)%N.

(** A key, a card, and the card with a signature field, for examples. *)
Definition demo_key : string := "0123456789abcdef0123456789abcdef".

Definition demo_card : pydict :=
  [("name"%string, PStr "Demo Agent");
   ("capabilities"%string, PList [PStr "test"; PStr "demo"]);
   ("pricing"%string, PDict [("model"%string, PStr "free"); ("amount"%string, PInt 0)])].

Definition signed_demo_card : pydict :=
  demo_card ++ [("signature"%string, PStr "c2lnbmVk")].

(** The items of a dict with their values encoded, in the order of the dict. *)
Definition encode_items (d : pydict) : pyresult (list (string * string)) :=
  mapM (fun kv => s ← Json.encode (snd kv); mret (fst kv, s)) d.

(** The order of the items of a dict in its canonical text. *)
Definition key_lt {V} (p q : string * V) : Prop := String.ltb (fst p) (fst q) = true.

(** The exponential moving average of the specification. *)
Definition ema (old sample : R) : R := old * 0.9 + sample * 0.1.

(** The metrics update of the specification: both averages move with every
    result, the latency sample being the latency the result reports. *)
Definition update_metrics_spec (agent : RegisteredAgent) (result : Orchestrator.AgentResult)
    : RegisteredAgent :=
  let success :=
    if String.eqb (Orchestrator.res_status result) "success" then 1 else 0 in
  let latency :=
    match Orchestrator.res_latency_ms result with Some l => l | None => 0 end in
  {| agent_id := agent_id agent; owner_id := owner_id agent;
     agent_card := agent_card agent; name := name agent;
     description := description agent; url := url agent;
     skills_tags := skills_tags agent; is_active := is_active agent;
     total_calls := (total_calls agent + 1)%Z;
     success_rate := ema (success_rate agent) success;
     avg_latency_ms := ema (avg_latency_ms agent) latency |}.

(** What the metrics loop does to the row of agent [a] for its result [r],
    from the store [db] before the request to the store [db'] after it. *)
Definition metrics_moved (db db' : Orchestrator.Db)
    (a : RegisteredAgent) (r : Orchestrator.AgentResult) : Prop :=
  let a' := Orchestrator.update_metrics a r in
  In a (Orchestrator.rows db)
  /\ In a' (Orchestrator.rows db')
  /\ total_calls a' = (total_calls a + 1)%Z
  /\ success_rate a'
     = ema (success_rate a)
           (if String.eqb (Orchestrator.res_status r) "success" then 1 else 0)
  /\ (forall l, Orchestrator.res_latency_ms r = Some l -> 0 < l ->
        avg_latency_ms a' = ema (avg_latency_ms a) l)
  /\ (Orchestrator.res_status r <> "success"%string ->
        avg_latency_ms a' = avg_latency_ms a).

(** The test of the comprehension that builds [preferred]. *)
Definition is_preferred (ids : list string) (a : RegisteredAgent) : bool :=
  existsb (String.eqb (agent_id a)) ids.

(** The address [call_agent_http] posts to. *)
Definition query_url (agent : RegisteredAgent) : string :=
  if endswith (url agent) "/query" then url agent else (url agent ++ "/query")%string.

(** The exception a dispatched call meets, if any. *)
Definition raised_by (o : Orchestrator.HttpOutcome) : option exn :=
  match o with
  | Orchestrator.TransportError e => Some e
  | Orchestrator.Responded status_code json_body =>
      if Orchestrator.is_success status_code then
        match json_body with
        | Raise e => Some e
        | Return _ => None
        end
      else Some (HttpError "Client or server error response")
  end.

(** The world in which the k-th call meets [o] and all else is as in [w]. *)
Definition with_outcome (w : Orchestrator.World) (k : nat) (o : Orchestrator.HttpOutcome)
    : Orchestrator.World :=
  {| Orchestrator.http_post := fun i url query =>
       if Nat.eqb i k then o else Orchestrator.http_post w i url query;
     Orchestrator.call_latency_ms := Orchestrator.call_latency_ms w;
     Orchestrator.commit_metrics := Orchestrator.commit_metrics w;
     Orchestrator.commit_log := Orchestrator.commit_log w;
     Orchestrator.total_latency_ms := Orchestrator.total_latency_ms w |}.

(** A world in which every agent answers 200 with an empty object after
    120 ms and both commits succeed, and the same with a failing commit. *)
Definition calm_world : Orchestrator.World :=
  {| Orchestrator.http_post := fun _ _ _ => Orchestrator.Responded 200 (Return (PDict []));
     Orchestrator.call_latency_ms := fun _ => 120;
     Orchestrator.commit_metrics := Return tt;
     Orchestrator.commit_log := Return tt;
     Orchestrator.total_latency_ms := 150 |}.

Definition log_write_fails : Orchestrator.World :=
  {| Orchestrator.http_post := Orchestrator.http_post calm_world;
     Orchestrator.call_latency_ms := Orchestrator.call_latency_ms calm_world;
     Orchestrator.commit_metrics := Return tt;
     Orchestrator.commit_log := Raise (DatabaseError "database is locked");
     Orchestrator.total_latency_ms := 150 |}.

Definition metrics_write_fails : Orchestrator.World :=
  {| Orchestrator.http_post := Orchestrator.http_post calm_world;
     Orchestrator.call_latency_ms := Orchestrator.call_latency_ms calm_world;
     Orchestrator.commit_metrics := Raise (DatabaseError "database is locked");
     Orchestrator.commit_log := Return tt;
     Orchestrator.total_latency_ms := 150 |}.

(** The candidates of a request. *)
Definition candidates (request : OrchestrateRequest) (db : Orchestrator.Db) : list RegisteredAgent :=
  Orchestrator.discover (List.filter is_active (Orchestrator.rows db)) request.

(** A store with three weather agents, and requests over it. *)
Definition alice : RegisteredAgent := agent_of "alice" [] ["weather"%string] 0 1 0.
Definition bob : RegisteredAgent := agent_of "bob" [] ["weather"%string] 12 0.5 4000.
Definition carol : RegisteredAgent := agent_of "carol" [] ["weather"%string] 3 0.9 100.

(** An agent whose card holds [null] for its metadata. *)
Definition mallory : RegisteredAgent :=
  agent_of "mallory" [("metadata"%string, PNone)] ["weather"%string] 1 1 50.

(** An agent that was deactivated. *)
Definition dave : RegisteredAgent :=
  {| agent_id := "dave"; owner_id := 2; agent_card := [];
     name := "dave"; description := "a retired agent"; url := "http://dave";
     skills_tags := ["weather"%string]; is_active := false;
     total_calls := 7; success_rate := 1; avg_latency_ms := 10 |}.

Definition two_row_db : Orchestrator.Db :=
  {| Orchestrator.rows := [alice; dave]; Orchestrator.logs := [] |}.

(** A request for hotel agents. *)
Definition hotel_request : OrchestrateRequest :=
  {| query := "a room in Rome"; skill_tags := Some ["hotel"%string];
     prefer_agent_ids := None; max_agents := 3 |}.

Definition one_agent_db : Orchestrator.Db :=
  {| Orchestrator.rows := [alice]; Orchestrator.logs := [] |}.

Definition request_of (prefer : option (list string)) (n : Z) : OrchestrateRequest :=
  {| query := "weather in Paris"; skill_tags := None;
     prefer_agent_ids := prefer; max_agents := n |}.

(** The world of [w] in which the commit of the log entry succeeds. *)
Definition with_log_commit (w : Orchestrator.World) : Orchestrator.World :=
  {| Orchestrator.http_post := Orchestrator.http_post w;
     Orchestrator.call_latency_ms := Orchestrator.call_latency_ms w;
     Orchestrator.commit_metrics := Orchestrator.commit_metrics w;
     Orchestrator.commit_log := Return tt;
     Orchestrator.total_latency_ms := Orchestrator.total_latency_ms w |}.

(** The row of an agent after the metrics loop met each of [results] in
    turn, one per request that selected the agent. *)
Definition after_results (agent : RegisteredAgent) (results : list Orchestrator.AgentResult)
    : RegisteredAgent :=
  fold_left Orchestrator.update_metrics results agent.

(** A result is a success. *)
Definition succeeded (r : Orchestrator.AgentResult) : bool :=
  String.eqb (Orchestrator.res_status r) "success".

(** The entry the orchestrator appends to the log. *)
Definition log_entry (request : OrchestrateRequest) (selected : list RegisteredAgent)
    (results : list Orchestrator.AgentResult) (latency : R)
    : OrchestrationLog Orchestrator.AgentResult :=
  {| client_query := (query request, skill_tags request);
     skill_filter :=
       match skill_tags request with
       | Some ((_ :: _) as tags) => Some (join "," tags)
       | _ => None
       end;
     log_selected_agents := map agent_id selected;
     log_results := results;
     log_success :=
       forallb (fun r => String.eqb (Orchestrator.res_status r) "success") results;
     log_latency_ms := latency |}.

End Spec.

Import Spec.

(** * Properties *)

(** ** The runtime *)

Example lower_ex : lower "Weather In PARIS" = "weather in paris"%string.
Proof. reflexivity. Qed.

Example split_ws_ex : split_ws "  find  a hotel " = ["find"; "a"; "hotel"]%string.
Proof. reflexivity. Qed.

Example split_on_ex :
  split_on ":" "did:poros:ed25519:abc" = ["did"; "poros"; "ed25519"; "abc"]%string.
Proof. reflexivity. Qed.

Example rstrip_ex : rstrip "=" "ab=c==" = "ab=c"%string.
Proof. reflexivity. Qed.

Example slice_to_ex :
  slice_to [1; 2; 3; 4]%Z 2 = [1; 2]%Z /\ slice_to [1; 2; 3; 4]%Z (-1) = [1; 2; 3]%Z.
Proof. split; reflexivity. Qed.

Ltac split_andb :=
  repeat match goal with
         | H : andb _ _ = true |- _ => apply andb_true_iff in H as [? ?]
         end.

Lemma Return_inj {A} (a b : A) : Return a = Return b -> a = b.
Proof. intros H. congruence. Qed.

(** ** Ranking *)

Section RankingFacts.

Import Ranking.
Local Open Scope R_scope.

Variable use_embeddings : bool.
Variable cos_sim : string -> string -> R.

Lemma log10_1 : log10 1 = 0.
Proof. unfold log10. rewrite ln_1. lra. Qed.

Lemma ln_10_pos : 0 < ln 10.
Proof. rewrite <- ln_1. apply ln_increasing; lra. Qed.

Lemma log10_nonneg x : 1 <= x -> 0 <= log10 x.
Proof.
  intros Hx. unfold log10.
  assert (0 <= ln x).
  { destruct (Req_dec x 1) as [->|Hne].
    - rewrite ln_1. lra.
    - left. rewrite <- ln_1. apply ln_increasing; lra. }
  pose proof ln_10_pos.
  apply Rmult_le_pos; [assumption|]. left. now apply Rinv_0_lt_compat.
Qed.

Lemma popularity_guard (calls : Z) :
  (0 <= calls)%Z ->
  (if (0 <? calls)%Z then popularity_score_spec calls else 0) = popularity_score_spec calls.
Proof.
  intros Hc. destruct (Z.ltb_spec 0 calls) as [Hlt|Hle]; [reflexivity|].
  assert (calls = 0%Z) as -> by lia.
  unfold popularity_score_spec. change (0 + 1)%Z with 1%Z. rewrite log10_1.
  rewrite Rmin_right; lra.
Qed.

Lemma performance_unfold agent query tags :
  PerformanceRanking_score agent query tags =
  success_rate agent * 60 + latency_points (avg_latency_ms agent)
  + (if (0 <? total_calls agent)%Z then popularity_score_spec (total_calls agent) else 0).
Proof.
  unfold PerformanceRanking_score, latency_points, popularity_score_spec.
  destruct (Rlt_dec 0 (avg_latency_ms agent)); destruct (0 <? total_calls agent)%Z; lra.
Qed.

(** C5, as the code has it: the score is [success_rate*60] plus the latency
    points plus [min(10, log10(total_calls+1)*2)]; the latency points are
    [max(0, 30 - (avg_latency_ms/5000)*30)] for a positive average latency,
    0 at or above 5000 ms, and 0 when the average latency is 0. *)
Theorem performance_score_formula agent query tags :
  0 <= avg_latency_ms agent ->
  (0 <= total_calls agent)%Z ->
  PerformanceRanking_score agent query tags =
    success_rate agent * 60 + latency_points (avg_latency_ms agent)
    + popularity_score_spec (total_calls agent)
  /\ (0 < avg_latency_ms agent ->
      latency_points (avg_latency_ms agent) = latency_score_spec (avg_latency_ms agent))
  /\ (5000 <= avg_latency_ms agent -> latency_points (avg_latency_ms agent) = 0)
  /\ (avg_latency_ms agent = 0 -> latency_points (avg_latency_ms agent) = 0).
Proof.
  intros Hlat Hcalls. repeat split.
  - rewrite performance_unfold, popularity_guard by assumption. reflexivity.
  - intros Hpos. unfold latency_points, latency_score_spec.
    destruct (Rlt_dec 0 (avg_latency_ms agent)); [reflexivity|lra].
  - intros Hbig. unfold latency_points.
    destruct (Rlt_dec 0 (avg_latency_ms agent)); [|reflexivity].
    apply Rmax_left. lra.
  - intros Hz. unfold latency_points. rewrite Hz.
    destruct (Rlt_dec 0 0); [lra|reflexivity].
Qed.

Lemma performance_score_formula_witness :
  let a := agent_of "a" [] [] 9 1 2500 in
  PerformanceRanking_score a "q" None =
    success_rate a * 60 + latency_points (avg_latency_ms a)
    + popularity_score_spec (total_calls a).
Proof.
  intros a. apply (performance_score_formula a "q" None); simpl; [lra|lia].
Defined.

(** C5, as stated, fails for an agent whose average latency is 0: the
    formula gives it 30 latency points, the code none. *)
Lemma performance_score_zero_latency :
  let a := agent_of "fresh" [] [] 0 1 0 in
  0 <= success_rate a <= 1 /\ 0 <= avg_latency_ms a /\ (0 <= total_calls a)%Z /\
  PerformanceRanking_score a "q" None = 60 /\
  performance_spec a = 90 /\
  PerformanceRanking_score a "q" None <> performance_spec a.
Proof.
  intros a.
  assert (Hcode : PerformanceRanking_score a "q" None = 60).
  { unfold PerformanceRanking_score, a; simpl.
    destruct (Rlt_dec 0 0); lra. }
  assert (Hspec : performance_spec a = 90).
  { unfold performance_spec, latency_score_spec, popularity_score_spec, a.
    cbn [success_rate avg_latency_ms total_calls agent_of]. change (0 + 1)%Z with 1%Z.
    rewrite log10_1. rewrite Rmax_right by lra. rewrite Rmin_right by lra. lra. }
  repeat split; simpl; try lra; try lia; try assumption.
Qed.

(** *** The range of the scores *)

Lemma ratio_bounds (m n : nat) : (m <= n)%nat -> (0 < n)%nat -> 0 <= INR m / INR n <= 1.
Proof.
  intros Hmn Hn.
  assert (0 < INR n) by (apply lt_0_INR; lia).
  assert (0 <= INR m) by apply pos_INR.
  assert (INR m <= INR n) by (apply le_INR; lia).
  split.
  - apply Rmult_le_pos; [assumption|]. left. now apply Rinv_0_lt_compat.
  - apply Rmult_le_reg_r with (INR n); [assumption|].
    unfold Rdiv. rewrite Rmult_assoc, Rinv_l by lra. lra.
Qed.

Lemma performance_score_bounds agent query tags :
  0 <= success_rate agent <= 1 ->
  0 <= PerformanceRanking_score agent query tags <= 100.
Proof.
  intros Hrate. rewrite performance_unfold.
  assert (Hlat : 0 <= latency_points (avg_latency_ms agent) <= 30).
  { unfold latency_points. destruct (Rlt_dec 0 (avg_latency_ms agent)) as [Hpos|]; [|lra].
    split; [apply Rmax_l|]. apply Rmax_lub; [lra|].
    assert (0 < avg_latency_ms agent / 5000) by (apply Rdiv_lt_0_compat; lra). lra. }
  assert (Hpop : 0 <= (if (0 <? total_calls agent)%Z
                       then popularity_score_spec (total_calls agent) else 0) <= 10).
  { destruct (Z.ltb_spec 0 (total_calls agent)) as [Hlt|]; [|lra].
    unfold popularity_score_spec. split; [|apply Rmin_l].
    apply Rmin_glb; [lra|].
    assert (0 <= log10 (IZR (total_calls agent + 1))).
    { apply log10_nonneg. apply IZR_le. lia. }
    lra. }
  lra.
Qed.

Lemma keyword_score_bounds agent query :
  0 <= score_with_keywords agent query <= 100.
Proof.
  unfold score_with_keywords.
  set (query_words := list_to_set (split_ws (lower query)) : gset string).
  set (desc_words := list_to_set (split_ws (lower (description agent))) : gset string).
  set (bonus := existsb _ _).
  assert (Hover : 0 <= (if (0 <? size query_words)%nat
                        then 0 + INR (size (query_words ∩ desc_words))
                                 / INR (size query_words) * 70
                        else 0) <= 70).
  { destruct (Nat.ltb_spec 0 (size query_words)) as [Hpos|]; [|lra].
    assert (Hsub : (size (query_words ∩ desc_words) <= size query_words)%nat).
    { apply subseteq_size, intersection_subseteq_l. }
    pose proof (ratio_bounds _ _ Hsub Hpos). lra. }
  split.
  - apply Rmin_glb; [|lra]. destruct bonus; lra.
  - apply Rmin_r.
Qed.

Lemma skill_match_score_bounds agent tags :
  0 <= skill_match_score agent tags <= 100.
Proof.
  unfold skill_match_score.
  destruct tags as [[|t tags]|]; try lra.
  set (agent_tags := list_to_set (skills_tags agent) : gset string).
  set (query_tags := list_to_set (t :: tags) : gset string).
  destruct (size query_tags =? 0)%nat; [lra|].
  destruct (Nat.eqb_spec (size (agent_tags ∪ query_tags)) 0) as [|Hne]; [lra|].
  assert (Hsub : (size (agent_tags ∩ query_tags) <= size (agent_tags ∪ query_tags))%nat).
  { apply subseteq_size. etransitivity;
      [apply intersection_subseteq_l | apply union_subseteq_l]. }
  assert (Hpos : (0 < size (agent_tags ∪ query_tags))%nat) by lia.
  pose proof (ratio_bounds _ _ Hsub Hpos). lra.
Qed.

Lemma assoc_get_cons {V} (k : string) (v : V) table key default :
  assoc_get ((k, v) :: table) key default
  = if String.eqb k key then v else assoc_get table key default.
Proof. reflexivity. Qed.

Lemma assoc_get_nil {V} key (default : V) : assoc_get [] key default = default.
Proof. reflexivity. Qed.

Lemma tier_scores_get_bounds tier v :
  tier_scores_get tier = Return v -> 0 <= v <= 100.
Proof.
  destruct tier as [| | | |s| | |]; unfold tier_scores_get; intros Hv; try discriminate;
    apply Return_inj in Hv; subst v; try lra.
  unfold tier_scores. rewrite !assoc_get_cons, assoc_get_nil.
  repeat (match goal with |- context [String.eqb ?a ?b] => destruct (String.eqb a b) end);
    lra.
Qed.

(** The revenue score stays within 0..110, and the hybrid score, on the
    keyword path, within 0..100. *)
Lemma revenue_score_bounds agent query tags v :
  0 <= success_rate agent <= 1 ->
  RevenueRanking_score agent query tags = Return v -> 0 <= v <= 110.
Proof.
  intros Hrate. unfold RevenueRanking_score.
  destruct (agent_tier agent) as [tier|]; simpl; [|discriminate].
  destruct (tier_scores_get tier) as [ts|] eqn:Hts; simpl; [|discriminate].
  intros Hv. apply Return_inj in Hv; subst v. apply tier_scores_get_bounds in Hts. lra.
Qed.

Lemma hybrid_score_bounds agent query tags v :
  0 <= success_rate agent <= 1 ->
  HybridRanking_score false cos_sim agent query tags = Return v -> 0 <= v <= 100.
Proof.
  intros Hrate. unfold HybridRanking_score.
  destruct (RevenueRanking_score agent query tags) as [rev|] eqn:Hrev; simpl; [|discriminate].
  intros Hv. apply Return_inj in Hv; subst v.
  apply revenue_score_bounds in Hrev; [|assumption].
  pose proof (skill_match_score_bounds agent tags).
  pose proof (performance_score_bounds agent query tags Hrate).
  pose proof (keyword_score_bounds agent query).
  unfold SemanticRanking_score, freshness_score,
    weight_skill_match, weight_performance, weight_semantic, weight_revenue, weight_freshness.
  lra.
Qed.

(** C4, at the input where it fails: an enterprise agent that never failed
    has revenue score 110, above the 0..100 scale of [RankingStrategy.score]. *)
Theorem revenue_score_enterprise :
  let card := [("metadata"%string, PDict [("tier"%string, PStr "enterprise")])] in
  let a := agent_of "big" card [] 0 1 0 in
  RevenueRanking_score a "q" None = Return 110
  /\ ~ (110 <= 100).
Proof.
  simpl. split; [|lra].
  unfold RevenueRanking_score; simpl. f_equal. lra.
Qed.

(** *** The strategy table *)

(** C10: a strategy name outside the table ranks as ["hybrid"] does. *)
Theorem rank_agents_unknown_strategy agents query tags (strategy : string) :
  strategy <> "performance"%string ->
  strategy <> "semantic"%string ->
  strategy <> "revenue"%string ->
  strategy <> "hybrid"%string ->
  rank_agents use_embeddings cos_sim agents query tags strategy
  = rank_agents use_embeddings cos_sim agents query tags "hybrid".
Proof.
  intros Hp Hs Hr Hh. unfold rank_agents.
  assert (Hget : assoc_get strategies strategy HybridRanking = HybridRanking).
  { unfold strategies. rewrite !assoc_get_cons, assoc_get_nil.
    repeat (match goal with
            | |- context [String.eqb ?a strategy] =>
                destruct (String.eqb_spec a strategy) as [E|_];
                [symmetry in E; contradiction|]
            end).
    reflexivity. }
  rewrite Hget. reflexivity.
Qed.

(** *** The ranking is a reordering of its input *)

Lemma mapM_cons {A B} (f : A -> pyresult B) a l :
  mapM f (a :: l) =
  match f a with
  | Raise e => Raise e
  | Return b => match mapM f l with
                | Raise e => Raise e
                | Return bs => Return (b :: bs)
                end
  end.
Proof.
  change (mapM f (a :: l)) with (f a ≫= (fun y => mapM f l ≫= (fun k => mret (y :: k)))).
  destruct (f a); [|reflexivity]. simpl. destruct (mapM f l); reflexivity.
Qed.

Lemma mapM_Return {A B} (f : A -> pyresult B) l bs :
  mapM f l = Return bs -> Forall2 (fun a b => f a = Return b) l bs.
Proof.
  revert bs. induction l as [|a l IH]; intros bs.
  - intros H. apply Return_inj in H. subst. constructor.
  - rewrite mapM_cons. destruct (f a) as [b|] eqn:Hb; [|discriminate].
    destruct (mapM f l) as [bs'|]; [|discriminate].
    intros H. apply Return_inj in H. subst. constructor; auto.
Qed.

Lemma mapM_all_Return {A B} (f : A -> pyresult B) l :
  Forall (fun a => exists b, f a = Return b) l -> exists bs, mapM f l = Return bs.
Proof.
  induction 1 as [|a l [b Hb] _ [bs Hbs]].
  - exists []. reflexivity.
  - exists (b :: bs). rewrite mapM_cons, Hb, Hbs. reflexivity.
Qed.

Lemma insert_desc_perm {A} (x : A * R) l : Permutation (insert_desc x l) (x :: l).
Proof.
  induction l as [|y l IH]; simpl; [reflexivity|].
  destruct (Rlt_dec (snd x) (snd y)); [|reflexivity].
  rewrite IH. apply perm_swap.
Qed.

Lemma sort_desc_perm {A} (l : list (A * R)) : Permutation (sort_desc l) l.
Proof.
  induction l as [|x l IH]; simpl; [reflexivity|].
  rewrite insert_desc_perm. now constructor.
Qed.

Lemma rank_agents_perm agents query tags strategy ranked :
  rank_agents use_embeddings cos_sim agents query tags strategy = Return ranked ->
  Permutation agents ranked.
Proof.
  unfold rank_agents.
  set (ranker := assoc_get strategies strategy HybridRanking).
  destruct (mapM _ agents) as [scored|] eqn:Hm; simpl; [|discriminate].
  intros H. apply Return_inj in H. subst ranked.
  apply mapM_Return in Hm.
  assert (Hfst : map fst scored = agents).
  { induction Hm as [|a [a' v] l l' Ha _ IH]; [reflexivity|].
    simpl. f_equal; [|exact IH].
    destruct (score _ _ _ _ _ _); simpl in Ha; [|discriminate].
    apply Return_inj in Ha. congruence. }
  rewrite <- Hfst at 1. apply Permutation_map. symmetry. apply sort_desc_perm.
Qed.

Lemma score_returns ranker agent query tags v :
  RevenueRanking_score agent query tags = Return v ->
  exists s, score use_embeddings cos_sim ranker agent query tags = Return s.
Proof.
  intros Hrev. destruct ranker; simpl; eauto.
  unfold HybridRanking_score. rewrite Hrev. simpl. eauto.
Qed.

Lemma rank_agents_returns agents query tags strategy :
  Forall (fun a => exists v, RevenueRanking_score a query tags = Return v) agents ->
  exists ranked,
    rank_agents use_embeddings cos_sim agents query tags strategy = Return ranked.
Proof.
  intros Hall. unfold rank_agents.
  set (ranker := assoc_get strategies strategy HybridRanking).
  destruct (mapM_all_Return
              (fun agent => s ← score use_embeddings cos_sim ranker agent query tags;
                            mret (agent, s)) agents) as [scored Hs].
  { eapply List.Forall_impl; [|exact Hall]. intros a [v Hv]. simpl.
    destruct (score_returns ranker a query tags v Hv) as [sc Hsc].
    rewrite Hsc. simpl. eauto. }
  rewrite Hs. simpl. eauto.
Qed.

End RankingFacts.

Lemma rank_agents_unknown_strategy_witness :
  Ranking.rank_agents false (fun _ _ => 0%R)
    [agent_of "a" [] [] 0 1 0; agent_of "b" [] [] 5 0.5 10] "weather" None "fastest"
  = Ranking.rank_agents false (fun _ _ => 0%R)
    [agent_of "a" [] [] 0 1 0; agent_of "b" [] [] 5 0.5 10] "weather" None "hybrid".
Proof.
  apply rank_agents_unknown_strategy; intros E; discriminate E.
Defined.

(** ** Orchestration *)

Section OrchestratorFacts.

Import Orchestrator.
Local Open Scope R_scope.

Variable use_embeddings : bool.
Variable cos_sim : string -> string -> R.

Abbreviation orchestrate := (Orchestrator.orchestrate use_embeddings cos_sim).
Abbreviation rank := (Ranking.rank_agents use_embeddings cos_sim).

(** *** The phases of [orchestrate] *)

Lemma orchestrate_no_candidates w request db :
  candidates request db = [] ->
  orchestrate w request db
  = (Raise (HTTPException 404 "No agents found matching criteria"), db).
Proof. unfold candidates, Orchestrator.orchestrate. intros ->. reflexivity. Qed.

Lemma orchestrate_phases w request db ranked :
  candidates request db <> [] ->
  rank (candidates request db) (query request) (skill_tags request) "hybrid" = Return ranked ->
  let selected := select_agents (candidates request db) ranked request in
  let results := map format_result (gather w selected (query request)) in
  let db1 := {| rows := write_back (update_all selected results) (rows db);
                logs := logs db |} in
  let db2 := {| rows := rows db1;
                logs := logs db ++ [log_entry request selected results (total_latency_ms w)] |} in
  orchestrate w request db =
  match commit_metrics w with
  | Raise e => (Raise e, db)
  | Return _ =>
      match commit_log w with
      | Raise e => (Raise e, db1)
      | Return _ =>
          match mapM selected_agent_entry selected with
          | Raise e => (Raise e, db2)
          | Return entries =>
              (Return {| resp_query := query request;
                         resp_selected_agents := entries;
                         resp_results := results;
                         resp_summary := generate_summary (query request) results;
                         resp_latency_ms := total_latency_ms w |}, db2)
          end
      end
  end.
Proof.
  unfold candidates, Orchestrator.orchestrate. intros Hne Hrank.
  destruct (discover (List.filter is_active (rows db)) request) as [|a l] eqn:Hd;
    [contradiction|].
  rewrite Hrank. reflexivity.
Qed.

Lemma orchestrate_rank_raises w request db e :
  candidates request db <> [] ->
  rank (candidates request db) (query request) (skill_tags request) "hybrid" = Raise e ->
  orchestrate w request db = (Raise e, db).
Proof.
  unfold candidates, Orchestrator.orchestrate. intros Hne Hrank.
  destruct (discover (List.filter is_active (rows db)) request) as [|a l] eqn:Hd;
    [contradiction|].
  rewrite Hrank. reflexivity.
Qed.

(** What a returned response tells about the run. *)
Lemma orchestrate_Return_inv w request db resp db' :
  orchestrate w request db = (Return resp, db') ->
  exists ranked,
    candidates request db <> [] /\
    rank (candidates request db) (query request) (skill_tags request) "hybrid"
      = Return ranked /\
    let selected := select_agents (candidates request db) ranked request in
    let results := map format_result (gather w selected (query request)) in
    commit_metrics w = Return tt /\
    commit_log w = Return tt /\
    mapM selected_agent_entry selected = Return (resp_selected_agents resp) /\
    resp_results resp = results /\
    rows db' = write_back (update_all selected results) (rows db) /\
    logs db' = logs db ++ [log_entry request selected results (total_latency_ms w)].
Proof.
  intros Hrun.
  assert (Hc : candidates request db = [] \/ candidates request db <> []).
  { destruct (candidates request db); [left; reflexivity|right; discriminate]. }
  destruct Hc as [Hc|Hne].
  { rewrite orchestrate_no_candidates in Hrun by assumption. discriminate. }
  destruct (rank (candidates request db) (query request) (skill_tags request) "hybrid")
    as [ranked|e] eqn:Hrank.
  2:{ rewrite (orchestrate_rank_raises _ _ _ e) in Hrun by assumption. discriminate. }
  rewrite (orchestrate_phases _ _ _ ranked Hne Hrank) in Hrun.
  exists ranked. split; [assumption|]. split; [reflexivity|].
  cbv zeta in *.
  destruct (commit_metrics w) as [[]|]; [|discriminate].
  destruct (commit_log w) as [[]|]; [|discriminate].
  destruct (mapM selected_agent_entry _) as [entries|]; [|discriminate].
  inversion Hrun; subst; clear Hrun. simpl. repeat split; reflexivity.
Qed.

(** *** Selection *)

Lemma slice_to_nonneg {A} (l : list A) n :
  (0 <= n)%Z -> slice_to l n = firstn (Z.to_nat n) l.
Proof. intros Hn. unfold slice_to. destruct (Z.leb_spec 0 n); [reflexivity|lia]. Qed.

Lemma slice_to_prefix {A} (l : list A) n : exists k, slice_to l n = firstn k l.
Proof. unfold slice_to. destruct (0 <=? n)%Z; eauto. Qed.

Lemma In_firstn {A} (a : A) k l : In a (firstn k l) -> In a l.
Proof.
  revert k. induction l as [|b l IH]; intros [|k]; simpl; try tauto.
  intros [->|Hin]; [now left|right; eauto].
Qed.

Lemma NoDup_map_filter {A B} (f : A -> B) (p : A -> bool) l :
  List.NoDup (map f l) -> List.NoDup (map f (List.filter p l)).
Proof.
  induction l as [|a l IH]; simpl; intros Hnd; [constructor|].
  apply List.NoDup_cons_iff in Hnd as [Hnotin Hnd].
  destruct (p a); simpl; [|auto].
  constructor; [|auto].
  intros Hin. apply Hnotin. apply in_map_iff in Hin as (b & Hb & Hbin).
  apply in_map_iff. exists b. split; [assumption|].
  apply filter_In in Hbin. tauto.
Qed.

Lemma NoDup_map_firstn {A B} (f : A -> B) k l :
  List.NoDup (map f l) -> List.NoDup (map f (firstn k l)).
Proof.
  revert k. induction l as [|a l IH]; intros [|k] Hnd; simpl; try constructor.
  - apply List.NoDup_cons_iff in Hnd as [Hnotin Hnd].
    intros Hin. apply Hnotin. apply in_map_iff in Hin as (b & Hb & Hbin).
    apply in_map_iff. exists b. split; [assumption|]. eapply In_firstn; eassumption.
  - apply List.NoDup_cons_iff in Hnd as [_ Hnd]. auto.
Qed.

Lemma row_in_true a agents :
  row_in a agents = true <-> In (agent_id a) (map agent_id agents).
Proof.
  unfold row_in. rewrite existsb_exists. split.
  - intros (b & Hb & Heq). apply String.eqb_eq in Heq. rewrite Heq. now apply in_map.
  - intros Hin. apply in_map_iff in Hin as (b & Hb & Hbin).
    exists b. split; [assumption|]. apply String.eqb_eq. congruence.
Qed.

Lemma is_preferred_true ids a : is_preferred ids a = true <-> In (agent_id a) ids.
Proof.
  unfold is_preferred. rewrite existsb_exists. split.
  - intros (i & Hi & Heq). apply String.eqb_eq in Heq. congruence.
  - intros Hin. exists (agent_id a). split; [assumption|]. apply String.eqb_refl.
Qed.

(** The selection under a list of preferred ids, for a bound that is not
    negative. *)
Lemma select_agents_preferred matching ranked request ids :
  prefer_agent_ids request = Some ids -> ids <> [] ->
  (0 <= max_agents request)%Z ->
  let n := Z.to_nat (max_agents request) in
  let preferred := List.filter (is_preferred ids) matching in
  select_agents matching ranked request
  = firstn n (preferred ++ List.filter (fun a => negb (row_in a preferred)) (firstn n ranked)).
Proof.
  intros Hids Hne Hn. unfold select_agents. rewrite Hids.
  destruct ids as [|i ids]; [contradiction|].
  rewrite !slice_to_nonneg by assumption. reflexivity.
Qed.

Lemma is_preferred_single i a : is_preferred [i] a = String.eqb (agent_id a) i.
Proof. unfold is_preferred. simpl. apply orb_false_r. Qed.

Lemma filter_no_id l x :
  ~ In (agent_id x) (map agent_id l) ->
  List.filter (is_preferred [agent_id x]) l = [].
Proof.
  induction l as [|b l IH]; intros Hnotin; [reflexivity|].
  cbn [List.filter]. rewrite is_preferred_single.
  destruct (String.eqb_spec (agent_id b) (agent_id x)) as [E|_].
  - exfalso. apply Hnotin. left. assumption.
  - apply IH. intros Hin. apply Hnotin. right. assumption.
Qed.

Lemma filter_single_id matching x :
  List.NoDup (map agent_id matching) -> In x matching ->
  List.filter (is_preferred [agent_id x]) matching = [x].
Proof.
  induction matching as [|a l IH]; intros Hnd Hin; [contradiction|].
  cbn [map] in Hnd. apply List.NoDup_cons_iff in Hnd as [Hnotin Hnd].
  cbn [List.filter]. rewrite is_preferred_single.
  destruct Hin as [->|Hin].
  - rewrite String.eqb_refl. f_equal. apply filter_no_id. assumption.
  - destruct (String.eqb_spec (agent_id a) (agent_id x)) as [E|_].
    + exfalso. apply Hnotin. rewrite E. now apply in_map.
    + auto.
Qed.

(** C7, as the code has it: with preferred ids and a bound that is not
    negative, the selection has no duplicate, has at most [max_agents]
    entries (at most 10 for a valid request), starts with the preferred
    candidates in candidate order, cut at [max_agents], and goes on with
    agents that are not preferred; all preferred candidates are selected when
    they are at most [max_agents]; a single preferred candidate comes first
    whatever its rank. *)
Theorem selection_puts_preferred_first matching ranked request ids :
  List.NoDup (map agent_id matching) ->
  Permutation matching ranked ->
  prefer_agent_ids request = Some ids -> ids <> [] ->
  (0 <= max_agents request)%Z ->
  let selection := select_agents matching ranked request in
  let preferred := List.filter (is_preferred ids) matching in
  let n := Z.to_nat (max_agents request) in
  List.NoDup (map agent_id selection)
  /\ (Z.of_nat (length selection) <= max_agents request)%Z
  /\ (max_agents_valid (max_agents request) = true -> (length selection <= 10)%nat)
  /\ (exists others,
        selection = firstn n preferred ++ others
        /\ Forall (fun a => is_preferred ids a = false) others)
  /\ ((length preferred <= n)%nat -> forall a, In a preferred -> In a selection)
  /\ (forall x, In x matching -> ids = [agent_id x] -> (1 <= n)%nat ->
        head selection = Some x).
Proof.
  intros Hnd Hperm Hids Hne Hn selection preferred n.
  assert (Hsel : selection
                 = firstn n (preferred
                             ++ List.filter (fun a => negb (row_in a preferred)) (firstn n ranked)))
    by (apply select_agents_preferred; assumption).
  set (rest := List.filter (fun a => negb (row_in a preferred)) (firstn n ranked)) in Hsel.
  assert (Hlen : (length selection <= n)%nat).
  { rewrite Hsel. rewrite length_firstn. lia. }
  assert (Hrest : Forall (fun a => is_preferred ids a = false) rest).
  { apply List.Forall_forall. intros a Ha. apply filter_In in Ha as [Ha Hnot].
    apply In_firstn in Ha.
    assert (Ham : In a matching) by (eapply Permutation_in; [symmetry|]; eassumption).
    destruct (is_preferred ids a) eqn:Hp; [|reflexivity]. exfalso.
    assert (Hin : In a preferred) by (apply filter_In; split; assumption).
    apply negb_true_iff in Hnot.
    assert (row_in a preferred = true) by (apply row_in_true; now apply in_map).
    congruence. }
  assert (Hsplit : selection = firstn n preferred ++ firstn (n - length preferred) rest).
  { rewrite Hsel. apply firstn_app. }
  repeat split.
  - rewrite Hsel. apply NoDup_map_firstn. rewrite map_app.
    apply List.NoDup_app.
    + apply NoDup_map_filter. assumption.
    + apply NoDup_map_filter, NoDup_map_firstn.
      eapply Permutation_NoDup; [apply Permutation_map; eassumption|assumption].
    + intros i Hi1 Hi2. apply in_map_iff in Hi2 as (a & Ha & Hain).
      apply filter_In in Hain as [_ Hnot]. apply negb_true_iff in Hnot.
      assert (row_in a preferred = true) by (apply row_in_true; congruence).
      congruence.
  - lia.
  - unfold max_agents_valid. intros Hv. apply Z.leb_le in Hv. lia.
  - exists (firstn (n - length preferred) rest). split; [assumption|].
    apply List.Forall_forall. intros a Ha. apply In_firstn in Ha.
    revert a Ha. apply List.Forall_forall. assumption.
  - intros Hfit a Ha. rewrite Hsplit. apply in_or_app. left.
    rewrite firstn_all2 by assumption. assumption.
  - intros x Hx -> Hone. rewrite Hsplit.
    unfold preferred. rewrite filter_single_id by assumption.
    destruct n as [|n']; [lia|]. reflexivity.
Qed.

(** Whatever the request, the selection is a duplicate-free part of the
    candidates. *)
Lemma select_agents_incl matching ranked request a :
  Permutation matching ranked ->
  In a (select_agents matching ranked request) -> In a matching.
Proof.
  intros Hperm. unfold select_agents.
  destruct (slice_to_prefix ranked (max_agents request)) as [k ->].
  assert (Hk : forall b, In b (firstn k ranked) -> In b matching).
  { intros b Hb. apply In_firstn in Hb.
    eapply Permutation_in; [symmetry|]; eassumption. }
  destruct (prefer_agent_ids request) as [[|i ids]|]; auto.
  set (preferred := List.filter _ matching).
  destruct (slice_to_prefix
              (preferred ++ List.filter (fun a => negb (row_in a preferred)) (firstn k ranked))
              (max_agents request)) as [k' ->].
  intros Hin. apply In_firstn in Hin. apply in_app_or in Hin as [Hin|Hin].
  - apply filter_In in Hin. tauto.
  - apply filter_In in Hin. apply Hk. tauto.
Qed.

Lemma select_agents_NoDup matching ranked request :
  List.NoDup (map agent_id matching) ->
  Permutation matching ranked ->
  List.NoDup (map agent_id (select_agents matching ranked request)).
Proof.
  intros Hnd Hperm. unfold select_agents.
  assert (Hr : List.NoDup (map agent_id ranked)).
  { eapply Permutation_NoDup; [apply Permutation_map; eassumption|assumption]. }
  destruct (slice_to_prefix ranked (max_agents request)) as [k ->].
  destruct (prefer_agent_ids request) as [[|i ids]|];
    try (apply NoDup_map_firstn; assumption).
  set (preferred := List.filter _ matching).
  destruct (slice_to_prefix
              (preferred ++ List.filter (fun a => negb (row_in a preferred)) (firstn k ranked))
              (max_agents request)) as [k' ->].
  apply NoDup_map_firstn. rewrite map_app. apply List.NoDup_app.
  - apply NoDup_map_filter. assumption.
  - apply NoDup_map_filter, NoDup_map_firstn. assumption.
  - intros j Hj1 Hj2. apply in_map_iff in Hj2 as (a & Ha & Hain).
    apply filter_In in Hain as [_ Hnot]. apply negb_true_iff in Hnot.
    assert (row_in a preferred = true) by (apply row_in_true; congruence).
    congruence.
Qed.

(** *** Dispatch *)

(** [call_agent_http] returns a result dict whatever the call meets: a
    success result with the measured latency, or an error result with the
    message of the exception and latency 0. *)
Lemma call_agent_http_result w i agent query :
  exists r,
    call_agent_http w i agent query = Return r
    /\ res_agent_id r = Some (agent_id agent)
    /\ res_agent_name r = Some (name agent)
    /\ match raised_by (http_post w i (query_url agent) query) with
       | None =>
           res_status r = "success"%string
           /\ res_latency_ms r = Some (call_latency_ms w i)
           /\ res_error r = None
       | Some e =>
           res_status r = "error"%string
           /\ res_latency_ms r = Some 0
           /\ res_error r = Some (exn_str e)
           /\ res_result r = None
       end.
Proof.
  unfold call_agent_http, raised_by, query_url.
  destruct (http_post w i _ query) as [status body|e].
  - destruct (is_success status).
    + destruct body as [data|e]; simpl; eexists; repeat split; reflexivity.
    + eexists; repeat split; reflexivity.
  - eexists; repeat split; reflexivity.
Qed.

Lemma length_gather_from w i agents query :
  length (gather_from w i agents query) = length agents.
Proof. revert i. induction agents as [|a l IH]; intros i; simpl; [|rewrite IH]; reflexivity. Qed.

Lemma lookup_gather_from w i agents query j a :
  agents !! j = Some a ->
  gather_from w i agents query !! j = Some (call_agent_http w (i + j) a query).
Proof.
  revert i j. induction agents as [|b l IH]; intros i [|j] Hj; try discriminate.
  - injection Hj as ->. simpl. rewrite Nat.add_0_r. reflexivity.
  - simpl. rewrite (IH (S i) j Hj).
    replace (i + S j)%nat with (S i + j)%nat by lia. reflexivity.
Qed.

Lemma lookup_map {A B} (f : A -> B) l j :
  map f l !! j = option_map f (l !! j).
Proof. revert j. induction l as [|a l IH]; intros [|j]; simpl; auto. Qed.

(** The formatted results, one per selected agent and in their order. *)
Lemma length_dispatch w agents query :
  length (map format_result (gather w agents query)) = length agents.
Proof. rewrite length_map. apply length_gather_from. Qed.

Lemma lookup_dispatch w agents query j a :
  agents !! j = Some a ->
  map format_result (gather w agents query) !! j
  = Some (format_result (call_agent_http w j a query)).
Proof.
  intros Hj. rewrite lookup_map. unfold gather.
  rewrite (lookup_gather_from w 0 agents query j a Hj). reflexivity.
Qed.

(** *** Metrics *)

Lemma agent_id_update_metrics a r : agent_id (update_metrics a r) = agent_id a.
Proof. reflexivity. Qed.

Lemma find_row_update_all selected results j a r :
  List.NoDup (map agent_id selected) ->
  selected !! j = Some a -> results !! j = Some r ->
  find_row a (update_all selected results) = Some (update_metrics a r).
Proof.
  revert results j. induction selected as [|b l IH]; intros [|r0 rs] [|j] Hnd Ha Hr;
    try discriminate.
  - injection Ha as ->. injection Hr as ->. simpl. rewrite String.eqb_refl. reflexivity.
  - cbn [map] in Hnd. apply List.NoDup_cons_iff in Hnd as [Hnotin Hnd].
    cbn [update_all find_row]. rewrite agent_id_update_metrics.
    destruct (String.eqb_spec (agent_id a) (agent_id b)) as [E|_].
    + exfalso. apply Hnotin. rewrite <- E. apply in_map.
      apply list_elem_of_In. eapply list_elem_of_lookup_2. exact Ha.
    + apply (IH rs j); assumption.
Qed.

Lemma write_back_In updated table a a' :
  In a table -> find_row a updated = Some a' -> In a' (write_back updated table).
Proof.
  intros Hin Hfind. unfold write_back. apply in_map_iff.
  exists a. rewrite Hfind. split; [reflexivity|assumption].
Qed.

Lemma candidates_incl request db a : In a (candidates request db) -> In a (rows db).
Proof.
  unfold candidates, discover. intros Hin.
  assert (Hact : forall b, In b (List.filter is_active (rows db)) -> In b (rows db)).
  { intros b Hb. apply filter_In in Hb. tauto. }
  destruct (skill_tags request) as [[|t tags]|]; auto.
  apply filter_In in Hin. apply Hact. tauto.
Qed.

Lemma candidates_NoDup request db :
  List.NoDup (map agent_id (rows db)) ->
  List.NoDup (map agent_id (candidates request db)).
Proof.
  intros Hnd. unfold candidates, discover.
  destruct (skill_tags request) as [[|t tags]|]; repeat apply NoDup_map_filter; assumption.
Qed.

Lemma entries_ids selected entries :
  mapM selected_agent_entry selected = Return entries ->
  map sel_agent_id entries = map agent_id selected.
Proof.
  intros Hm. apply mapM_Return in Hm.
  induction Hm as [|a entry l l' Ha _ IH]; [reflexivity|].
  simpl. f_equal; [|exact IH].
  unfold selected_agent_entry in Ha.
  destruct (skill_names (agent_card a)); simpl in Ha; [|discriminate].
  apply Return_inj in Ha. subst entry. reflexivity.
Qed.

(** C6, as the code has it: over rows with distinct agent ids (the column is
    unique), after a dispatch whose commits succeed, the
    stored row of every selected agent, whether its call succeeded or failed,
    has [total_calls] one higher and the success rate moved by the moving
    average with sample 1 for a success and 0 for a failure; the average
    latency moves by the moving average with the measured latency when the
    result reports a positive latency, and is left as it was otherwise, which
    is the case of every failed call. *)
Theorem metrics_updated_after_dispatch w request db resp db' :
  List.NoDup (map agent_id (rows db)) ->
  orchestrate w request db = (Return resp, db') ->
  exists selected,
    map agent_id selected = map sel_agent_id (resp_selected_agents resp)
    /\ Forall2 (metrics_moved db db') selected (resp_results resp).
Proof.
  intros Hnd Hrun.
  destruct (orchestrate_Return_inv _ _ _ _ _ Hrun)
    as (ranked & Hne & Hrank & _ & _ & Hentries & Hres & Hrows & _).
  cbv zeta in *.
  set (selected := select_agents (candidates request db) ranked request) in *.
  pose proof (rank_agents_perm _ _ _ _ _ _ _ Hrank) as Hperm.
  assert (Hsel_nd : List.NoDup (map agent_id selected)).
  { apply select_agents_NoDup; [apply candidates_NoDup|]; assumption. }
  exists selected. split; [symmetry; apply entries_ids; assumption|].
  rewrite Hres.
  apply Forall2_same_length_lookup_2; [symmetry; apply length_dispatch|].
  intros j a r Ha Hr. unfold metrics_moved. cbv zeta.
  assert (Hin : In a (rows db)).
  { apply (candidates_incl request). apply (select_agents_incl _ ranked request); [assumption|].
    apply list_elem_of_In. eapply list_elem_of_lookup_2. exact Ha. }
  assert (Hfind : find_row a (update_all selected
                                (map format_result (gather w selected (query request))))
                  = Some (update_metrics a r)).
  { apply (find_row_update_all _ _ j); assumption. }
  split; [assumption|]. split.
  { rewrite Hrows. apply (write_back_In _ _ a); assumption. }
  split; [reflexivity|]. split; [reflexivity|]. split.
  - intros l Hl Hpos. unfold update_metrics, ema. simpl. rewrite Hl.
    destruct (Rlt_dec 0 l); [reflexivity|contradiction].
  - intros Hfail.
    rewrite (lookup_dispatch w selected (query request) j a Ha) in Hr.
    injection Hr as <-.
    destruct (call_agent_http_result w j a (query request)) as (r & Hcall & _ & _ & Hcase).
    rewrite Hcall in *. cbn [format_result] in *.
    destruct (raised_by _) as [e|].
    + destruct Hcase as (_ & Hlat & _). unfold update_metrics. simpl. rewrite Hlat.
      destruct (Rlt_dec 0 0); [lra|reflexivity].
    + destruct Hcase as (Hst & _). contradiction.
Qed.

(** *** Isolation of failures *)

Lemma call_agent_http_elsewhere w k o i agent query :
  i <> k ->
  call_agent_http (with_outcome w k o) i agent query = call_agent_http w i agent query.
Proof.
  intros Hik. unfold call_agent_http, with_outcome. cbn [http_post call_latency_ms].
  destruct (Nat.eqb_spec i k); [contradiction|reflexivity].
Qed.

Lemma call_agent_http_failed w k o e agent query :
  raised_by o = Some e ->
  exists r,
    call_agent_http (with_outcome w k o) k agent query = Return r
    /\ res_agent_id r = Some (agent_id agent)
    /\ res_status r = "error"%string
    /\ res_error r = Some (exn_str e).
Proof.
  intros Ho.
  destruct (call_agent_http_result (with_outcome w k o) k agent query)
    as (r & Hcall & Hid & _ & Hcase).
  unfold with_outcome in Hcase at 1. cbn [http_post] in Hcase.
  rewrite Nat.eqb_refl, Ho in Hcase.
  exists r. tauto.
Qed.

(** C8: when the k-th dispatched call of a request that completes is made
    to fail (a transport error or timeout, a status outside 2xx, a body that
    is not JSON), the request still completes with the same selected agents
    and one result per selected agent; the k-th result is that agent's, has
    status ["error"] and carries the message, and every other result is what
    it was. *)
Theorem failure_isolation w request db resp db1 k o e :
  orchestrate w request db = (Return resp, db1) ->
  raised_by o = Some e ->
  (k < length (resp_selected_agents resp))%nat ->
  exists resp' db1',
    orchestrate (with_outcome w k o) request db = (Return resp', db1')
    /\ resp_selected_agents resp' = resp_selected_agents resp
    /\ length (resp_results resp') = length (resp_selected_agents resp)
    /\ length (resp_results resp) = length (resp_selected_agents resp)
    /\ (exists r entry,
          resp_results resp' !! k = Some r
          /\ resp_selected_agents resp !! k = Some entry
          /\ res_agent_id r = Some (sel_agent_id entry)
          /\ res_status r = "error"%string
          /\ res_error r = Some (exn_str e))
    /\ (forall j, j <> k -> resp_results resp' !! j = resp_results resp !! j).
Proof.
  intros Hrun Ho Hk.
  destruct (orchestrate_Return_inv _ _ _ _ _ Hrun)
    as (ranked & Hne & Hrank & Hcm & Hcl & Hentries & Hres & _).
  cbv zeta in *.
  set (selected := select_agents (candidates request db) ranked request) in *.
  assert (Hlen : length (resp_selected_agents resp) = length selected).
  { apply mapM_Return in Hentries. symmetry. eapply Forall2_length. exact Hentries. }
  rewrite (orchestrate_phases (with_outcome w k o) request db ranked Hne Hrank).
  cbv zeta. fold selected.
  change (commit_metrics (with_outcome w k o)) with (commit_metrics w).
  change (commit_log (with_outcome w k o)) with (commit_log w).
  rewrite Hcm, Hcl, Hentries.
  eexists. eexists. split; [reflexivity|]. cbn [resp_selected_agents resp_results].
  split; [reflexivity|]. split; [rewrite length_dispatch; congruence|].
  split; [rewrite Hres, length_dispatch; congruence|]. split.
  - destruct (lookup_lt_is_Some_2 selected k) as [a Ha]; [lia|].
    destruct (call_agent_http_failed w k o e a (query request) Ho)
      as (r & Hcall & Hid & Hst & Herr).
    destruct (lookup_lt_is_Some_2 (resp_selected_agents resp) k) as [entry Hentry];
      [lia|].
    exists r, entry. rewrite (lookup_dispatch _ selected _ k a Ha), Hcall.
    repeat split; try assumption.
    rewrite Hid. f_equal.
    apply entries_ids in Hentries.
    assert (Hk1 : map sel_agent_id (resp_selected_agents resp) !! k
                  = map agent_id selected !! k) by (rewrite Hentries; reflexivity).
    rewrite !lookup_map, Ha, Hentry in Hk1. simpl in Hk1. congruence.
  - intros j Hj. rewrite Hres, !lookup_map. unfold gather.
    destruct (selected !! j) as [a|] eqn:Ha.
    + rewrite !(lookup_gather_from _ 0 selected _ j a Ha).
      simpl. rewrite call_agent_http_elsewhere by assumption. reflexivity.
    + assert (Hge : (length selected <= j)%nat) by (apply lookup_ge_None; assumption).
      rewrite !(proj2 (lookup_ge_None _ _)); [reflexivity| |];
        rewrite length_gather_from; assumption.
Qed.

(** *** Persistence *)

(** C9, as the code has it: the two commits are on the path of the request.
    Once the agents are selected, an exception of either commit leaves the
    handler in place of the response, and a response is returned only after
    both commits succeeded. *)
Theorem persistence_failure_fails_request w request db ranked e :
  candidates request db <> [] ->
  rank (candidates request db) (query request) (skill_tags request) "hybrid" = Return ranked ->
  commit_metrics w = Raise e \/ (commit_metrics w = Return tt /\ commit_log w = Raise e) ->
  fst (orchestrate w request db) = Raise e
  /\ forall w' resp db',
       orchestrate w' request db = (Return resp, db') ->
       commit_metrics w' = Return tt /\ commit_log w' = Return tt.
Proof.
  intros Hne Hrank Hfail. split.
  - rewrite (orchestrate_phases w request db ranked Hne Hrank). cbv zeta.
    destruct Hfail as [Hm|[Hm Hl]]; rewrite Hm; [reflexivity|].
    rewrite Hl. reflexivity.
  - intros w' resp db' Hrun.
    destruct (orchestrate_Return_inv _ _ _ _ _ Hrun) as (_ & _ & _ & Hcm & Hcl & _).
    split; assumption.
Qed.

End OrchestratorFacts.

Lemma three_agents_NoDup : List.NoDup (map agent_id [alice; bob; carol]).
Proof.
  repeat constructor; simpl; intuition discriminate.
Qed.

Lemma selection_puts_preferred_first_witness :
  head (Orchestrator.select_agents [alice; bob; carol] [carol; alice; bob]
          (request_of (Some ["bob"%string]) 2)) = Some bob.
Proof.
  apply (selection_puts_preferred_first [alice; bob; carol] [carol; alice; bob]
           (request_of (Some ["bob"%string]) 2) ["bob"%string]).
  - exact three_agents_NoDup.
  - apply Permutation_sym, (Permutation_cons_app [alice; bob] [] carol).
    reflexivity.
  - reflexivity.
  - discriminate.
  - simpl. lia.
  - right. left. reflexivity.
  - reflexivity.
  - simpl. lia.
Defined.

(** C7, as stated, fails when more candidates are preferred than
    [max_agents] allows: the cut drops a preferred candidate. *)
Lemma preferred_candidate_dropped :
  let request := request_of (Some ["alice"; "bob"]%string) 1 in
  let matching := [alice; bob] in
  In bob matching
  /\ is_preferred ["alice"; "bob"]%string bob = true
  /\ max_agents_valid (max_agents request) = true
  /\ Orchestrator.select_agents matching matching request = [alice]
  /\ ~ In bob (Orchestrator.select_agents matching matching request).
Proof.
  simpl. repeat split.
  - right. left. reflexivity.
  - intros [E|[]]. apply (f_equal agent_id) in E. discriminate E.
Qed.

(** With a negative bound, which the request model admits, the slice counts
    from the end and the selection is longer than [max_agents]. *)
Example negative_bound_example :
  max_agents_valid (-1) = true
  /\ Orchestrator.select_agents [alice; bob; carol] [alice; bob; carol] (request_of None (-1))
     = [alice; bob].
Proof. split; reflexivity. Qed.

Lemma alice_revenue query tags :
  exists v, Ranking.RevenueRanking_score alice query tags = Return v.
Proof. eexists. unfold Ranking.RevenueRanking_score. simpl. reflexivity. Qed.

Lemma one_agent_ranked prefer n :
  exists ranked,
    Ranking.rank_agents false (fun _ _ => 0%R)
      (candidates (request_of prefer n) one_agent_db)
      (query (request_of prefer n)) (skill_tags (request_of prefer n)) "hybrid"
    = Return ranked.
Proof.
  apply rank_agents_returns.
  change (candidates (request_of prefer n) one_agent_db) with [alice].
  constructor; [apply alice_revenue|constructor].
Qed.

Lemma calm_run :
  exists resp db',
    Orchestrator.orchestrate false (fun _ _ => 0%R) calm_world
      (request_of None 3) one_agent_db = (Return resp, db')
    /\ length (Orchestrator.resp_selected_agents resp) = 1%nat.
Proof.
  destruct (one_agent_ranked None 3) as [ranked Hranked].
  assert (Hne : candidates (request_of None 3) one_agent_db <> []) by discriminate.
  rewrite (orchestrate_phases false _ calm_world _ _ ranked Hne Hranked).
  cbv zeta. cbn [Orchestrator.commit_metrics Orchestrator.commit_log calm_world].
  assert (Hsel : Orchestrator.select_agents (candidates (request_of None 3) one_agent_db)
                   ranked (request_of None 3) = [alice]).
  { apply rank_agents_perm in Hranked.
    change (candidates (request_of None 3) one_agent_db) with [alice] in Hranked |- *.
    apply Permutation_length_1_inv in Hranked. subst ranked. reflexivity. }
  rewrite Hsel. simpl. eauto.
Qed.

Lemma metrics_updated_after_dispatch_witness :
  exists resp db' selected,
    Orchestrator.orchestrate false (fun _ _ => 0%R) calm_world
      (request_of None 3) one_agent_db = (Return resp, db')
    /\ Forall2 (metrics_moved one_agent_db db') selected
         (Orchestrator.resp_results resp).
Proof.
  destruct calm_run as (resp & db' & Hrun & _).
  destruct (metrics_updated_after_dispatch false (fun _ _ => 0%R) calm_world
              (request_of None 3) one_agent_db resp db') as (selected & _ & Hmoved).
  - repeat constructor. simpl. tauto.
  - exact Hrun.
  - exists resp, db', selected. split; assumption.
Defined.

(** C6, as stated, fails for a failed call: its result reports latency 0 and
    the average latency of the agent stays where it was, while the moving
    average with that sample would lower it. *)
Lemma failed_call_keeps_latency :
  let w := with_outcome calm_world 0
             (Orchestrator.TransportError (HttpError "timed out")) in
  exists r,
    Orchestrator.call_agent_http w 0 bob "q" = Return r
    /\ Orchestrator.res_status r = "error"%string
    /\ Orchestrator.res_latency_ms r = Some 0%R
    /\ avg_latency_ms (Orchestrator.update_metrics bob r) = 4000%R
    /\ avg_latency_ms (update_metrics_spec bob r) = 3600%R
    /\ Orchestrator.update_metrics bob r <> update_metrics_spec bob r.
Proof.
  simpl. eexists. split; [reflexivity|]. split; [reflexivity|]. split; [reflexivity|].
  assert (Hcode : forall r, Orchestrator.res_latency_ms r = Some 0%R ->
                    avg_latency_ms (Orchestrator.update_metrics bob r) = 4000%R).
  { intros r Hr. unfold Orchestrator.update_metrics. simpl. rewrite Hr.
    destruct (Rlt_dec 0 0); [lra|reflexivity]. }
  assert (Hspec : forall r, Orchestrator.res_latency_ms r = Some 0%R ->
                    avg_latency_ms (update_metrics_spec bob r) = 3600%R).
  { intros r Hr. unfold update_metrics_spec, ema. simpl. rewrite Hr. lra. }
  split; [apply Hcode; reflexivity|]. split; [apply Hspec; reflexivity|].
  intros E. apply (f_equal avg_latency_ms) in E.
  rewrite Hcode, Hspec in E by reflexivity. lra.
Qed.

Lemma failure_isolation_witness :
  exists resp db1 resp' db1',
    Orchestrator.orchestrate false (fun _ _ => 0%R) calm_world
      (request_of None 3) one_agent_db = (Return resp, db1)
    /\ Orchestrator.orchestrate false (fun _ _ => 0%R)
         (with_outcome calm_world 0
            (Orchestrator.TransportError (HttpError "timed out")))
         (request_of None 3) one_agent_db = (Return resp', db1')
    /\ length (Orchestrator.resp_results resp') = 1%nat.
Proof.
  destruct calm_run as (resp & db1 & Hrun & Hone).
  destruct (failure_isolation false (fun _ _ => 0%R) calm_world (request_of None 3)
              one_agent_db resp db1 0
              (Orchestrator.TransportError (HttpError "timed out"))
              (HttpError "timed out") Hrun)
    as (resp' & db1' & Hrun' & _ & Hlen & _).
  - reflexivity.
  - rewrite Hone. lia.
  - exists resp, db1, resp', db1'. rewrite Hlen, Hone. auto.
Defined.

Lemma persistence_failure_fails_request_witness :
  fst (Orchestrator.orchestrate false (fun _ _ => 0%R) metrics_write_fails
         (request_of None 3) one_agent_db)
  = Raise (DatabaseError "database is locked").
Proof.
  destruct (one_agent_ranked None 3) as [ranked Hranked].
  apply (persistence_failure_fails_request false (fun _ _ => 0%R)
           metrics_write_fails (request_of None 3) one_agent_db ranked).
  - discriminate.
  - exact Hranked.
  - left. reflexivity.
Defined.

(** C9, as stated, fails when the commit of the log entry raises: with the
    same agents and answers the client gets the exception, not the response
    it gets when the commit succeeds. *)
Lemma log_failure_reaches_client :
  (exists resp db',
     Orchestrator.orchestrate false (fun _ _ => 0%R) calm_world
       (request_of None 3) one_agent_db = (Return resp, db'))
  /\ fst (Orchestrator.orchestrate false (fun _ _ => 0%R) log_write_fails
            (request_of None 3) one_agent_db)
     = Raise (DatabaseError "database is locked").
Proof.
  split.
  - destruct calm_run as (resp & db' & Hrun & _). eauto.
  - destruct (one_agent_ranked None 3) as [ranked Hranked].
    assert (Hne : candidates (request_of None 3) one_agent_db <> []) by discriminate.
    rewrite (orchestrate_phases false _ log_write_fails _ _ ranked Hne Hranked).
    reflexivity.
Qed.

(** ** Base64 *)

Section Base64Facts.

Import Base64.
Local Open Scope N_scope.

Ltac Zify.zify_post_hook ::= Z.to_euclidean_division_equations.

Lemma below_64 (P : N -> bool) :
  forallb P (map N.of_nat (seq 0 64)) = true -> forall n, n < 64 -> P n = true.
Proof.
  intros Hall n Hn. rewrite forallb_forall in Hall. apply Hall.
  apply in_map_iff. exists (N.to_nat n). split; [apply N2Nat.id|].
  apply in_seq. lia.
Qed.

Lemma b64_index_char n : n < 64 -> b64_index (b64_char n) = Some n.
Proof.
  intros Hn.
  apply (below_64 (fun n => match b64_index (b64_char n) with
                            | Some m => N.eqb m n
                            | None => false
                            end)) in Hn; [|vm_compute; reflexivity].
  destruct (b64_index (b64_char n)) as [m|]; [|discriminate].
  apply N.eqb_eq in Hn. congruence.
Qed.

Lemma b64_char_facts n : n < 64 -> char_facts (b64_char n) = true.
Proof.
  intros Hn. apply (below_64 (fun n => char_facts (b64_char n))); [|assumption].
  vm_compute. reflexivity.
Qed.

Lemma sextets a b c :
  a < 256 -> b < 256 -> c < 256 ->
  a / 4 < 64 /\ (a mod 4) * 16 + b / 16 < 64
  /\ (b mod 16) * 4 + c / 64 < 64 /\ c mod 64 < 64
  /\ (a mod 4) * 16 < 64 /\ (b mod 16) * 4 < 64.
Proof. intros. repeat split; lia. Qed.

Lemma octets a b c :
  a < 256 -> b < 256 -> c < 256 ->
  ((a / 4) * 4 + ((a mod 4) * 16 + b / 16) / 16) mod 256 = a
  /\ ((((a mod 4) * 16 + b / 16) mod 16) * 16 + ((b mod 16) * 4 + c / 64) / 4) mod 256 = b
  /\ ((((b mod 16) * 4 + c / 64) mod 4) * 64 + c mod 64) mod 256 = c
  /\ ((a / 4) * 4 + ((a mod 4) * 16) / 16) mod 256 = a
  /\ ((((a mod 4) * 16 + b / 16) mod 16) * 16 + ((b mod 16) * 4) / 4) mod 256 = b.
Proof. intros. repeat split; lia. Qed.

Ltac Zify.zify_post_hook ::= idtac.

Lemma octet_code c n : n mod 256 = code c -> octet n = c.
Proof. intros Hn. unfold octet. rewrite Hn. apply ascii_N_embedding. Qed.

Lemma code_bounded c : code c < 256.
Proof. apply N_ascii_bounded. Qed.

Lemma b64_char_not_pad n : n < 64 -> Ascii.eqb (b64_char n) pad = false.
Proof.
  intros Hn. pose proof (b64_char_facts n Hn) as H. unfold char_facts in H.
  repeat (apply andb_true_iff in H as [H ?]).
  apply negb_true_iff. assumption.
Qed.

Lemma b64_char_ascii n : n < 64 -> (code (b64_char n) <? 128) = true.
Proof.
  intros Hn. pose proof (b64_char_facts n Hn) as H. unfold char_facts in H.
  repeat (apply andb_true_iff in H as [H ?]). assumption.
Qed.

(** Strings are read three octets at a time. *)
Lemma string_ind3 (P : string -> Prop) :
  P EmptyString ->
  (forall a, P (String a EmptyString)) ->
  (forall a b, P (String a (String b EmptyString))) ->
  (forall a b c s, P s -> P (String a (String b (String c s)))) ->
  forall s, P s.
Proof.
  intros H0 H1 H2 H3.
  assert (H : forall s, P s /\ (forall a, P (String a s)) /\ (forall a b, P (String a (String b s)))).
  { induction s as [|c s (IH0 & IH1 & IH2)].
    - auto.
    - repeat split; auto. }
  intros s. apply H.
Qed.

(** The decoder that runs the model inverts the encoder. *)
Lemma strict_a2b_b2a data : strict_a2b_base64 (b2a_base64 data) = Return data.
Proof.
  induction data as [|a|a b|a b c rest IH] using string_ind3.
  - reflexivity.
  - pose proof (code_bounded a) as Ha.
    destruct (sextets (code a) 0 0 Ha) as (S0 & _ & _ & _ & S1 & _); [lia|lia|].
    destruct (octets (code a) 0 0 Ha) as (_ & _ & _ & O0 & _); [lia|lia|].
    cbn [b2a_base64 strict_a2b_base64].
    rewrite !b64_index_char by assumption.
    change (Ascii.eqb pad pad) with true. cbn [andb String.eqb].
    rewrite (octet_code a) by assumption. reflexivity.
  - pose proof (code_bounded a) as Ha. pose proof (code_bounded b) as Hb.
    destruct (sextets (code a) (code b) 0 Ha Hb) as (S0 & S1 & _ & _ & _ & S2); [lia|].
    destruct (octets (code a) (code b) 0 Ha Hb) as (O0 & _ & _ & _ & O1); [lia|].
    cbn [b2a_base64 strict_a2b_base64].
    rewrite !b64_index_char by assumption.
    rewrite b64_char_not_pad by assumption.
    change (Ascii.eqb pad pad) with true. cbn [String.eqb].
    rewrite (octet_code a), (octet_code b) by assumption. reflexivity.
  - pose proof (code_bounded a) as Ha. pose proof (code_bounded b) as Hb.
    pose proof (code_bounded c) as Hc.
    destruct (sextets (code a) (code b) (code c) Ha Hb Hc) as (S0 & S1 & S2 & S3 & _).
    destruct (octets (code a) (code b) (code c) Ha Hb Hc) as (O0 & O1 & O2 & _).
    cbn [b2a_base64 strict_a2b_base64].
    rewrite !b64_index_char by assumption.
    rewrite !b64_char_not_pad by assumption.
    rewrite IH.
    rewrite (octet_code a), (octet_code b), (octet_code c) by assumption. reflexivity.
Qed.

End Base64Facts.

(** ** Strings *)

Section StringFacts.

Local Open Scope string_scope.

Lemma append_cons c s t : String c s ++ t = String c (s ++ t).
Proof. reflexivity. Qed.

Lemma append_nil_l s : EmptyString ++ s = s.
Proof. reflexivity. Qed.

Lemma append_nil_r s : s ++ EmptyString = s.
Proof.
  induction s as [|c s IH]; [reflexivity|]. rewrite append_cons, IH. reflexivity.
Qed.

Lemma append_assoc s1 s2 s3 : (s1 ++ s2) ++ s3 = s1 ++ (s2 ++ s3).
Proof.
  induction s1 as [|c s IH]; [reflexivity|]. rewrite !append_cons, IH. reflexivity.
Qed.

Lemma length_append s1 s2 :
  String.length (s1 ++ s2) = (String.length s1 + String.length s2)%nat.
Proof.
  induction s1 as [|c s IH]; [reflexivity|]. rewrite append_cons. simpl.
  rewrite IH. reflexivity.
Qed.

Lemma length_repeat_char c n : String.length (repeat_char c n) = n.
Proof. induction n as [|n IH]; simpl; [|rewrite IH]; reflexivity. Qed.

Lemma all_chars_append p s1 s2 :
  all_chars p (s1 ++ s2) = all_chars p s1 && all_chars p s2.
Proof.
  induction s1 as [|c s IH]; [reflexivity|]. rewrite append_cons. simpl.
  rewrite IH. apply andb_assoc.
Qed.

Lemma all_chars_impl (p q : ascii -> bool) s :
  (forall c, p c = true -> q c = true) -> all_chars p s = true -> all_chars q s = true.
Proof.
  intros Hpq. induction s as [|c s IH]; simpl; [reflexivity|].
  intros H. apply andb_true_iff in H as [Hc Hs]. rewrite (Hpq c Hc). auto.
Qed.

Lemma prefix_append p s : String.prefix p (p ++ s) = true.
Proof.
  induction p as [|c p IH]; [destruct s; reflexivity|].
  rewrite append_cons. simpl.
  destruct (ascii_dec c c); [assumption|contradiction].
Qed.

Lemma startswith_append p s : startswith (p ++ s) p = true.
Proof. apply prefix_append. Qed.

(** [rstrip] removes a run of the character at the end and nothing else. *)
Lemma rstrip_no_trailing c s :
  all_chars (fun a => negb (Ascii.eqb a c)) s = true -> rstrip c s = s.
Proof.
  induction s as [|a s IH]; simpl; [reflexivity|].
  intros H. apply andb_true_iff in H as [Ha Hs]. rewrite (IH Hs).
  apply negb_true_iff in Ha. rewrite Ha. destruct s; reflexivity.
Qed.

Lemma rstrip_repeat c n : rstrip c (repeat_char c n) = EmptyString.
Proof.
  induction n as [|n IH]; simpl; [reflexivity|].
  rewrite IH, Ascii.eqb_refl. reflexivity.
Qed.

Lemma rstrip_append_repeat c s n :
  all_chars (fun a => negb (Ascii.eqb a c)) s = true ->
  rstrip c (s ++ repeat_char c n) = s.
Proof.
  induction s as [|a s IH].
  - intros _. apply rstrip_repeat.
  - rewrite append_cons. simpl.
    intros H. apply andb_true_iff in H as [Ha Hs]. rewrite (IH Hs).
    apply negb_true_iff in Ha. rewrite Ha. destruct s; reflexivity.
Qed.

(** The last piece of a split is what follows the last separator. *)
Lemma split_on_aux_nonempty sep s cur : split_on_aux sep s cur <> [].
Proof.
  revert cur. induction s as [|c s IH]; intros cur; simpl; [discriminate|].
  destruct (Ascii.eqb c sep); [discriminate|apply IH].
Qed.

Lemma last_cons_nonempty {A} (x : A) l d : l <> [] -> List.last (x :: l) d = List.last l d.
Proof. destruct l; [contradiction|reflexivity]. Qed.

Lemma string_of_list_ascii_app l1 l2 :
  string_of_list_ascii (l1 ++ l2)%list
  = string_of_list_ascii l1 ++ string_of_list_ascii l2.
Proof.
  induction l1 as [|c l IH]; [reflexivity|]. simpl. rewrite append_cons, IH. reflexivity.
Qed.

Lemma split_on_aux_no_sep sep s cur :
  all_chars (fun a => negb (Ascii.eqb a sep)) s = true ->
  split_on_aux sep s cur = [string_of_list_ascii (rev cur) ++ s].
Proof.
  revert cur. induction s as [|c s IH]; intros cur; simpl.
  - intros _. rewrite append_nil_r. reflexivity.
  - intros H. apply andb_true_iff in H as [Hc Hs].
    apply negb_true_iff in Hc. rewrite Hc, (IH _ Hs). simpl.
    rewrite string_of_list_ascii_app, append_assoc. reflexivity.
Qed.

Lemma last_split_on_aux sep t s cur :
  all_chars (fun a => negb (Ascii.eqb a sep)) s = true ->
  List.last (split_on_aux sep (t ++ String sep s) cur) EmptyString = s.
Proof.
  intros Hs. revert cur.
  induction t as [|c t IH]; intros cur; [rewrite append_nil_l|rewrite append_cons]; simpl.
  - rewrite Ascii.eqb_refl.
    rewrite last_cons_nonempty by apply split_on_aux_nonempty.
    rewrite split_on_aux_no_sep by assumption. reflexivity.
  - destruct (Ascii.eqb c sep).
    + rewrite last_cons_nonempty by apply split_on_aux_nonempty. apply IH.
    + apply IH.
Qed.

Lemma last_split_did s :
  all_chars (fun a => negb (Ascii.eqb a ":")) s = true ->
  List.last (split_on ":" (Identity.did_prefix ++ s)) EmptyString = s.
Proof.
  intros Hs. unfold split_on.
  change (Identity.did_prefix ++ s) with ("did:poros:ed25519" ++ String ":" s).
  apply last_split_on_aux. assumption.
Qed.

End StringFacts.

(** ** The text the encoder gives *)

Section EncodedText.

Import Base64.
Local Open Scope string_scope.

Ltac Zify.zify_post_hook ::= Z.to_euclidean_division_equations.

Lemma mod4_step (n p : nat) :
  (Z.of_nat (n + p) mod 4 = 0 -> Z.of_nat (S (S (S (S n))) + p) mod 4 = 0)%Z.
Proof. lia. Qed.

Lemma padding_cases (n p : nat) :
  (p <= 2)%nat -> (Z.of_nat (n + p) mod 4 = 0)%Z ->
  (p = 0%nat /\ (4 - Z.of_nat n mod 4 = 4)%Z)
  \/ (p <> 0%nat /\ (4 - Z.of_nat n mod 4 = Z.of_nat p)%Z).
Proof. intros Hp Hmod. destruct (Nat.eq_dec p 0); [left|right]; split; lia. Qed.

Ltac Zify.zify_post_hook ::= idtac.

(** The encoded text is a body of alphabet characters and at most two pads,
    four characters for every three octets. *)
Lemma b2a_shape data :
  exists body p,
    b2a_base64 data = body ++ repeat_char pad p
    /\ (p <= 2)%nat
    /\ (Z.of_nat (String.length body + p) mod 4 = 0)%Z
    /\ all_chars char_facts body = true.
Proof.
  induction data as [|a|a b|a b c rest IH] using string_ind3.
  - exists EmptyString, 0%nat. repeat split; auto.
  - pose proof (code_bounded a) as Ha.
    destruct (sextets (code a) 0 0 Ha) as (S0 & _ & _ & _ & S1 & _); [lia|lia|].
    eexists (String _ (String _ EmptyString)), 2%nat. cbn [b2a_base64].
    split; [reflexivity|]. split; [lia|]. split; [reflexivity|].
    cbn [all_chars]. rewrite !b64_char_facts by assumption. reflexivity.
  - pose proof (code_bounded a) as Ha. pose proof (code_bounded b) as Hb.
    destruct (sextets (code a) (code b) 0 Ha Hb) as (S0 & S1 & _ & _ & _ & S2); [lia|].
    eexists (String _ (String _ (String _ EmptyString))), 1%nat. cbn [b2a_base64].
    split; [reflexivity|]. split; [lia|]. split; [reflexivity|].
    cbn [all_chars]. rewrite !b64_char_facts by assumption. reflexivity.
  - pose proof (code_bounded a) as Ha. pose proof (code_bounded b) as Hb.
    pose proof (code_bounded c) as Hc.
    destruct (sextets (code a) (code b) (code c) Ha Hb Hc) as (S0 & S1 & S2 & S3 & _).
    destruct IH as (body & p & Henc & Hp & Hmod & Hall).
    eexists (String _ (String _ (String _ (String _ body)))), p. cbn [b2a_base64].
    rewrite Henc. split; [reflexivity|]. split; [assumption|]. split.
    + cbn [String.length]. apply mod4_step. assumption.
    + cbn [all_chars]. rewrite !b64_char_facts by assumption. assumption.
Qed.

Lemma translate_append f1 t1 f2 t2 s1 s2 :
  translate f1 t1 f2 t2 (s1 ++ s2) = translate f1 t1 f2 t2 s1 ++ translate f1 t1 f2 t2 s2.
Proof.
  induction s1 as [|c s IH]; [reflexivity|].
  rewrite append_cons. cbn [translate]. rewrite IH. reflexivity.
Qed.

Lemma translate_pads f1 t1 f2 t2 p :
  Ascii.eqb pad f1 = false -> Ascii.eqb pad f2 = false ->
  translate f1 t1 f2 t2 (repeat_char pad p) = repeat_char pad p.
Proof.
  intros H1 H2. induction p as [|p IH]; [reflexivity|].
  cbn [repeat_char translate]. rewrite H1, H2, IH. reflexivity.
Qed.

(** The url-safe form of a body: same length, no pad and no colon, ASCII,
    and the decoding table gives the body back. *)
Lemma urlsafe_body body :
  all_chars char_facts body = true ->
  let u := urlsafe_encode_translation body in
  String.length u = String.length body
  /\ all_chars url_ok u = true
  /\ urlsafe_decode_translation u = body.
Proof.
  induction body as [|c body IH]; [repeat split; reflexivity|].
  cbn [all_chars]. intros H. apply andb_true_iff in H as [Hc Hbody].
  destruct (IH Hbody) as (Hlen & Hok & Hback).
  unfold char_facts in Hc. cbv zeta in Hc. split_andb.
  unfold urlsafe_encode_translation, urlsafe_decode_translation in *.
  cbn [translate String.length all_chars]. repeat split.
  - rewrite Hlen. reflexivity.
  - unfold url_ok at 1.
    repeat (apply andb_true_iff; split); assumption.
  - rewrite Hback. f_equal. apply Ascii.eqb_eq. assumption.
Qed.

Lemma is_ascii_all_chars s : is_ascii s = all_chars (fun c => (code c <? 128)%N) s.
Proof. induction s as [|c s IH]; simpl; [|rewrite IH]; reflexivity. Qed.

Lemma is_ascii_pads p : is_ascii (repeat_char pad p) = true.
Proof. induction p as [|p IH]; [reflexivity|]. simpl. exact IH. Qed.

Lemma is_ascii_append s1 s2 : is_ascii (s1 ++ s2) = is_ascii s1 && is_ascii s2.
Proof. rewrite !is_ascii_all_chars. apply all_chars_append. Qed.

Lemma is_ascii_b2a data : is_ascii (b2a_base64 data) = true.
Proof.
  destruct (b2a_shape data) as (body & p & -> & _ & _ & Hall).
  rewrite is_ascii_append, is_ascii_pads, is_ascii_all_chars, andb_true_r.
  apply (all_chars_impl char_facts); [|assumption].
  intros c Hc. unfold char_facts in Hc. cbv zeta in Hc. split_andb. assumption.
Qed.

(** The url-safe encoding as a body and its pads. *)
Lemma urlsafe_b64encode_shape data :
  exists u p,
    urlsafe_b64encode data = u ++ repeat_char pad p
    /\ (p <= 2)%nat
    /\ (Z.of_nat (String.length u + p) mod 4 = 0)%Z
    /\ all_chars url_ok u = true
    /\ urlsafe_decode_translation (u ++ repeat_char pad p) = b2a_base64 data.
Proof.
  destruct (b2a_shape data) as (body & p & Henc & Hp & Hmod & Hall).
  destruct (urlsafe_body body Hall) as (Hlen & Hok & Hback).
  exists (urlsafe_encode_translation body), p.
  unfold urlsafe_b64encode, b64encode. rewrite Henc.
  unfold urlsafe_encode_translation at 1. rewrite translate_append, translate_pads by reflexivity.
  split; [reflexivity|]. split; [assumption|]. split; [rewrite Hlen; assumption|].
  split; [assumption|].
  unfold urlsafe_decode_translation at 1.
  rewrite translate_append, translate_pads by reflexivity.
  fold (urlsafe_decode_translation (urlsafe_encode_translation body)).
  rewrite Hback. reflexivity.
Qed.

(** The key segment of a generated DID, padded again, is the encoded key. *)
Lemma padded_generated_key data :
  padded_key_segment (Identity.did_prefix ++ rstrip "=" (urlsafe_b64encode data))
  = urlsafe_b64encode data.
Proof.
  destruct (urlsafe_b64encode_shape data) as (u & p & -> & Hp & Hmod & Hok & _).
  unfold pad in *.
  assert (Hnopad : all_chars (fun a => negb (Ascii.eqb a "=")) u = true).
  { apply (all_chars_impl url_ok); [|assumption]. intros c Hc. unfold url_ok in Hc.
    split_andb. assumption. }
  assert (Hnocolon : all_chars (fun a => negb (Ascii.eqb a ":")) u = true).
  { apply (all_chars_impl url_ok); [|assumption]. intros c Hc. unfold url_ok in Hc.
    split_andb. assumption. }
  rewrite (rstrip_append_repeat "=" u p Hnopad).
  unfold padded_key_segment. rewrite (last_split_did u Hnocolon). cbv zeta.
  destruct (padding_cases (String.length u) p Hp Hmod) as [[-> Hpad]|[Hne Hpad]];
    rewrite Hpad.
  - rewrite Z.eqb_refl. cbn [repeat_char]. rewrite append_nil_r. reflexivity.
  - destruct (Z.eqb_spec (Z.of_nat p) 4) as [E|_]; [lia|].
    rewrite Nat2Z.id. reflexivity.
Qed.

End EncodedText.

(** ** Identity *)

Section IdentityFacts.

Import Crypto Identity.
Local Open Scope string_scope.

Lemma utf8_encode_ascii s : Base64.is_ascii s = true -> Json.utf8_encode s = s.
Proof.
  induction s as [|c s IH]; [reflexivity|]. simpl.
  intros H. apply andb_true_iff in H as [Hc Hs]. rewrite Hc, (IH Hs). reflexivity.
Qed.

(** The transparent scheme keeps the laws. *)
Lemma transparent_laws : Laws transparent.
Proof.
  constructor.
  - intros sk. cbn [load_pem_private_key private_pem transparent].
    rewrite utf8_encode_ascii by apply is_ascii_b2a.
    rewrite strict_a2b_b2a. reflexivity.
  - reflexivity.
  - intros sk message. cbn [verify sign public_key transparent].
    rewrite String.eqb_refl. reflexivity.
  - apply strict_a2b_b2a.
Qed.

Variable lib : Library.

Lemma b64decode_b64encode (laws : Laws lib) data :
  Base64.b64decode (a2b_base64 lib) (Base64.b64encode data) = Return data.
Proof.
  unfold Base64.b64decode, Base64.bytes_from_decode_data, Base64.b64encode.
  rewrite is_ascii_b2a. simpl. apply (a2b_b2a lib laws).
Qed.

Lemma urlsafe_b64decode_b64encode (laws : Laws lib) data :
  Base64.urlsafe_b64decode (a2b_base64 lib) (Base64.urlsafe_b64encode data) = Return data.
Proof.
  destruct (urlsafe_b64encode_shape data) as (u & p & Henc & _ & _ & Hok & Hback).
  unfold Base64.urlsafe_b64decode, Base64.bytes_from_decode_data. rewrite Henc.
  assert (Hascii : Base64.is_ascii (u ++ repeat_char Base64.pad p) = true).
  { rewrite is_ascii_append, is_ascii_pads, andb_true_r, is_ascii_all_chars.
    apply (all_chars_impl url_ok); [|assumption].
    intros c Hc. unfold url_ok in Hc. split_andb. assumption. }
  rewrite Hascii. simpl. rewrite Hback. apply (b64decode_b64encode laws).
Qed.

(** The [try] of [verify_agent_card], step by step. *)
Lemma verify_try_steps record signature_b64 did :
  verify_agent_card_try lib record signature_b64 did =
  if negb (startswith did did_prefix) then Return false
  else
    public_bytes ← Base64.urlsafe_b64decode (a2b_base64 lib) (padded_key_segment did);
    public_key ← from_public_bytes lib public_bytes;
    canonical_json ← Json.dumps_canonical record;
    signature ← Base64.b64decode (a2b_base64 lib) signature_b64;
    _ ← verify lib public_key signature (Json.utf8_encode canonical_json);
    mret true.
Proof. reflexivity. Qed.

Lemma verify_catches record signature_b64 did e :
  verify_agent_card_try lib record signature_b64 did = Raise e ->
  verify_agent_card lib record signature_b64 did = Return false.
Proof. unfold verify_agent_card. intros ->. destruct e; reflexivity. Qed.

(** C1: [verify_agent_card] always returns a boolean. It is [False] when the
    DID lacks the prefix, when the key segment or the signature does not
    decode, when the cryptographic check raises, and whenever anything in its
    body raises; it is [True] only when every step succeeded and the check
    accepted the signature. *)
Theorem verify_agent_card_fails_closed record signature_b64 did :
  (exists b, verify_agent_card lib record signature_b64 did = Return b)
  /\ (startswith did did_prefix = false ->
      verify_agent_card lib record signature_b64 did = Return false)
  /\ (forall e,
        Base64.urlsafe_b64decode (a2b_base64 lib) (padded_key_segment did) = Raise e ->
        verify_agent_card lib record signature_b64 did = Return false)
  /\ (forall e,
        Base64.b64decode (a2b_base64 lib) signature_b64 = Raise e ->
        verify_agent_card lib record signature_b64 did = Return false)
  /\ (forall e,
        verify_agent_card_try lib record signature_b64 did = Raise e ->
        verify_agent_card lib record signature_b64 did = Return false)
  /\ (verify_agent_card lib record signature_b64 did = Return true ->
      startswith did did_prefix = true
      /\ exists public_bytes public_key canonical_json signature,
           Base64.urlsafe_b64decode (a2b_base64 lib) (padded_key_segment did)
             = Return public_bytes
           /\ from_public_bytes lib public_bytes = Return public_key
           /\ Json.dumps_canonical record = Return canonical_json
           /\ Base64.b64decode (a2b_base64 lib) signature_b64 = Return signature
           /\ verify lib public_key signature (Json.utf8_encode canonical_json)
              = Return tt).
Proof.
  repeat split.
  - unfold verify_agent_card.
    destruct (verify_agent_card_try lib record signature_b64 did) as [b|[]]; eauto.
  - intros Hpre. unfold verify_agent_card. rewrite verify_try_steps, Hpre. reflexivity.
  - intros e He. unfold verify_agent_card. rewrite verify_try_steps.
    destruct (startswith did did_prefix); [|reflexivity].
    cbn [negb]. rewrite He. destruct e; reflexivity.
  - intros e He. unfold verify_agent_card. rewrite verify_try_steps.
    destruct (startswith did did_prefix); [|reflexivity]. cbn [negb].
    destruct (Base64.urlsafe_b64decode _ _) as [pb|e1]; [|destruct e1; reflexivity].
    simpl. destruct (from_public_bytes lib pb) as [pk|e1]; [|destruct e1; reflexivity].
    simpl. destruct (Json.dumps_canonical record) as [cj|e1]; [|destruct e1; reflexivity].
    simpl. rewrite He. destruct e; reflexivity.
  - apply verify_catches.
  - unfold verify_agent_card in H. rewrite verify_try_steps in H.
    destruct (startswith did did_prefix); [reflexivity|].
    cbn [negb] in H. discriminate H.
  - unfold verify_agent_card in H. rewrite verify_try_steps in H.
    destruct (startswith did did_prefix); [|cbn [negb] in H; discriminate H].
    cbn [negb] in H.
    destruct (Base64.urlsafe_b64decode _ _) as [pb|e1]; [|destruct e1; discriminate H].
    simpl in H. destruct (from_public_bytes lib pb) as [pk|e1] eqn:Hpk;
      [|destruct e1; discriminate H].
    simpl in H. destruct (Json.dumps_canonical record) as [cj|e1];
      [|destruct e1; discriminate H].
    simpl in H. destruct (Base64.b64decode _ signature_b64) as [sg|e1];
      [|destruct e1; discriminate H].
    simpl in H. destruct (verify lib pk sg (Json.utf8_encode cj)) as [[]|e1] eqn:Hv;
      [|destruct e1; discriminate H].
    exists pb, pk, cj, sg. repeat split; assumption.
Qed.

(** C2: a record that serializes, signed with a generated key, verifies
    against the DID generated with it. *)
Theorem sign_verify_round_trip (laws : Laws lib)
    (private_key : PrivateKey lib) record canonical_json :
  Json.dumps_canonical record = Return canonical_json ->
  exists signature,
    sign_agent_card lib record (snd (generate_keypair lib private_key)) = Return signature
    /\ verify_agent_card lib record signature (fst (generate_keypair lib private_key))
       = Return true.
Proof.
  intros Hjson.
  exists (Base64.b64encode
            (sign lib private_key (Json.utf8_encode canonical_json))).
  split.
  - unfold sign_agent_card, generate_keypair. cbn [snd].
    rewrite Hjson. simpl. rewrite (load_private_pem lib laws). reflexivity.
  - unfold verify_agent_card. rewrite verify_try_steps.
    unfold generate_keypair. cbn [fst].
    rewrite startswith_append. cbn [negb].
    rewrite padded_generated_key.
    rewrite (urlsafe_b64decode_b64encode laws). simpl.
    rewrite (from_public_bytes_raw lib laws). simpl.
    rewrite Hjson. simpl.
    rewrite (b64decode_b64encode laws). simpl.
    rewrite (verify_sign lib laws). reflexivity.
Qed.

Lemma dict_without_idem d key :
  dict_without (dict_without d key) key = dict_without d key.
Proof.
  unfold dict_without. induction d as [|[k v] d IH]; [reflexivity|].
  cbn [List.filter fst]. destruct (negb (k =? key)) eqn:Hk; [|exact IH].
  cbn [List.filter fst]. rewrite Hk, IH. reflexivity.
Qed.

Lemma dict_without_absent d key :
  dict_lookup d key = None -> dict_without d key = d.
Proof.
  unfold dict_without. induction d as [|[k v] d IH]; [reflexivity|].
  cbn [dict_lookup List.filter fst]. destruct (k =? key); [discriminate|].
  intros H. cbn [negb]. rewrite (IH H). reflexivity.
Qed.

(** C3, as the code has it: the endpoints of [identity_api] strip the field
    before they sign or verify, so a record and the record without its
    ['signature'] get the same answer from them; the functions of [identity]
    canonicalize the record they are given, and agree with the endpoints on
    a record that has no such field. *)
Theorem api_strips_signature agent_card private_key_pem signature did :
  IdentityApi.sign_agent_card lib agent_card private_key_pem
  = IdentityApi.sign_agent_card lib (dict_without agent_card "signature") private_key_pem
  /\ IdentityApi.verify_agent_card lib agent_card signature did
     = IdentityApi.verify_agent_card lib (dict_without agent_card "signature") signature did
  /\ IdentityApi.verify_agent_card lib agent_card signature did
     = Identity.verify_agent_card lib (dict_without agent_card "signature") signature did
  /\ (dict_lookup agent_card "signature" = None ->
      IdentityApi.verify_agent_card lib agent_card signature did
      = Identity.verify_agent_card lib agent_card signature did
      /\ IdentityApi.sign_agent_card lib agent_card private_key_pem
         = match Identity.sign_agent_card lib agent_card private_key_pem with
           | Return s => Return (s, IdentityApi.with_signature agent_card s)
           | Raise e =>
               Raise (HTTPException 400 ("Failed to sign AgentCard: " ++ exn_str e))
           end).
Proof.
  split; [|split; [|split]].
  - unfold IdentityApi.sign_agent_card. rewrite dict_without_idem. reflexivity.
  - unfold IdentityApi.verify_agent_card. rewrite dict_without_idem. reflexivity.
  - reflexivity.
  - intros Hno. unfold IdentityApi.verify_agent_card, IdentityApi.sign_agent_card.
    rewrite (dict_without_absent _ _ Hno). split; [reflexivity|].
    destruct (Identity.sign_agent_card lib agent_card private_key_pem); reflexivity.
Qed.

End IdentityFacts.

Lemma sign_verify_round_trip_witness :
  exists signature,
    Identity.sign_agent_card Crypto.transparent demo_card
      (snd (Identity.generate_keypair Crypto.transparent demo_key)) = Return signature
    /\ Identity.verify_agent_card Crypto.transparent demo_card signature
         (fst (Identity.generate_keypair Crypto.transparent demo_key)) = Return true.
Proof.
  eapply (sign_verify_round_trip Crypto.transparent transparent_laws demo_key demo_card).
  vm_compute. reflexivity.
Defined.

Lemma Return_neq (s t : string) : String.eqb s t = false -> Return s <> Return t.
Proof. intros H E. apply Return_inj in E. apply String.eqb_neq in H. contradiction. Qed.

(** C3, as stated, fails for the functions of [identity]: they canonicalize
    the record with its ['signature'] field, so the signed text and the
    signature differ from those of the stripped record, and a signature of
    the stripped record does not verify against the record that has the
    field. *)
Lemma signature_field_is_signed :
  let pem := snd (Identity.generate_keypair Crypto.transparent demo_key) in
  let did := fst (Identity.generate_keypair Crypto.transparent demo_key) in
  let stripped := dict_without signed_demo_card "signature" in
  dict_lookup signed_demo_card "signature" = Some (PStr "c2lnbmVk")
  /\ stripped = demo_card
  /\ Json.dumps_canonical signed_demo_card <> Json.dumps_canonical stripped
  /\ Identity.sign_agent_card Crypto.transparent signed_demo_card pem
     <> Identity.sign_agent_card Crypto.transparent stripped pem
  /\ exists signature,
       Identity.sign_agent_card Crypto.transparent stripped pem = Return signature
       /\ Identity.verify_agent_card Crypto.transparent stripped signature did = Return true
       /\ Identity.verify_agent_card Crypto.transparent signed_demo_card signature did
          = Return false.
Proof.
  cbv zeta. split; [reflexivity|]. split; [reflexivity|]. split; [|split].
  - vm_compute. apply Return_neq. vm_compute. reflexivity.
  - vm_compute. apply Return_neq. vm_compute. reflexivity.
  - eexists. split; [vm_compute; reflexivity|]. split; vm_compute; reflexivity.
Qed.

(** * Further properties of the code *)

(** ** Ranking *)

Section RankingMore.

Import Ranking.
Local Open Scope R_scope.

Variable use_embeddings : bool.
Variable cos_sim : string -> string -> R.

(** X1: for a success rate within 0..1, the performance score is within
    0..100, whatever the latency and the number of calls. *)
Theorem performance_score_in_range agent query tags :
  0 <= success_rate agent <= 1 ->
  0 <= PerformanceRanking_score agent query tags <= 100.
Proof. apply performance_score_bounds. Qed.

(** X2: the keyword score is within 0..100 for every agent and query. *)
Theorem keyword_score_in_range agent query :
  0 <= score_with_keywords agent query <= 100.
Proof. apply keyword_score_bounds. Qed.

Lemma size_list_to_set_nil : size (list_to_set [] : gset string) = 0%nat.
Proof. reflexivity. Qed.

(** X3: a query without a word (empty, or white space only) has keyword
    score 0 for every agent. *)
Theorem keyword_score_no_words agent query :
  split_ws (lower query) = [] ->
  score_with_keywords agent query = 0.
Proof.
  intros Hq. unfold score_with_keywords. rewrite Hq.
  change (list_to_set [] : gset string) with (∅ : gset string).
  rewrite size_empty, elements_empty. cbn [Nat.ltb Nat.leb existsb].
  apply Rmin_left. lra.
Qed.

(** X4: the skill match is the neutral 50 without requested tags, 100 when
    the requested tags are exactly the tags of the agent, and 0 when none of
    them is a tag of the agent. *)
Theorem skill_match_extremes agent (tags : list string) :
  skill_match_score agent None = 50
  /\ skill_match_score agent (Some []) = 50
  /\ (tags <> [] -> (forall t, In t tags <-> In t (skills_tags agent)) ->
      skill_match_score agent (Some tags) = 100)
  /\ (tags <> [] -> (forall t, In t tags -> ~ In t (skills_tags agent)) ->
      skill_match_score agent (Some tags) = 0).
Proof.
  split; [reflexivity|]. split; [reflexivity|].
  assert (Hsize : tags <> [] -> size (list_to_set tags : gset string) <> 0%nat).
  { intros Hne Hz. apply size_empty_iff in Hz.
    destruct tags as [|t l]; [contradiction|].
    assert (t ∈ (list_to_set (t :: l) : gset string)) by (apply elem_of_list_to_set; left).
    rewrite Hz in H. apply not_elem_of_empty in H. exact H. }
  split.
  - intros Hne Heq. unfold skill_match_score.
    destruct tags as [|t l] eqn:Htags; [contradiction|]. rewrite <- Htags in *.
    set (agent_tags := list_to_set (skills_tags agent) : gset string).
    set (query_tags := list_to_set tags : gset string).
    assert (Hsame : agent_tags = query_tags).
    { apply set_eq. intros x. unfold agent_tags, query_tags.
      rewrite !elem_of_list_to_set, !list_elem_of_In. symmetry. apply Heq. }
    rewrite Hsame.
    assert (Hi : query_tags ∩ query_tags = query_tags).
    { apply set_eq. intros x. rewrite elem_of_intersection. tauto. }
    assert (Hu : query_tags ∪ query_tags = query_tags).
    { apply set_eq. intros x. rewrite elem_of_union. tauto. }
    rewrite Hi, Hu.
    destruct (Nat.eqb_spec (size query_tags) 0) as [E|_]; [exfalso; apply (Hsize Hne E)|].
    assert (0 < INR (size query_tags)) by (apply lt_0_INR; specialize (Hsize Hne); fold query_tags in Hsize; lia).
    unfold Rdiv. rewrite Rinv_r by lra. lra.
  - intros Hne Hdis. unfold skill_match_score.
    destruct tags as [|t l] eqn:Htags; [contradiction|]. rewrite <- Htags in *.
    set (agent_tags := list_to_set (skills_tags agent) : gset string).
    set (query_tags := list_to_set tags : gset string).
    destruct (Nat.eqb_spec (size query_tags) 0) as [E|_]; [exfalso; apply (Hsize Hne E)|].
    assert (Hinter : agent_tags ∩ query_tags = ∅).
    { apply set_eq. intros x. unfold agent_tags, query_tags.
      rewrite elem_of_intersection, !elem_of_list_to_set, !list_elem_of_In.
      split; [|intros Hx; apply not_elem_of_empty in Hx; contradiction].
      intros [Ha Hq]. exfalso. apply (Hdis x Hq Ha). }
    rewrite Hinter, size_empty.
    destruct (size (agent_tags ∪ query_tags) =? 0)%nat; [reflexivity|].
    simpl. unfold Rdiv. lra.
Qed.

(** X5: on the keyword path, the hybrid score of an agent whose success rate
    is within 0..1 is within 0..100 whenever it is computed. *)
Theorem hybrid_score_in_range agent query tags v :
  0 <= success_rate agent <= 1 ->
  HybridRanking_score false cos_sim agent query tags = Return v ->
  0 <= v <= 100.
Proof. apply hybrid_score_bounds. Qed.

(** X6: the revenue score of an agent whose success rate is within 0..1 is
    within 0..110 whenever it is computed. *)
Theorem revenue_score_in_range agent query tags v :
  0 <= success_rate agent <= 1 ->
  RevenueRanking_score agent query tags = Return v ->
  0 <= v <= 110.
Proof. apply revenue_score_bounds. Qed.

(** X7: an agent whose card has no metadata, or metadata without a tier,
    ranks as a free agent: its revenue score is ten times its success rate. *)
Theorem revenue_score_without_tier agent query tags :
  (dict_lookup (agent_card agent) "metadata" = None
   \/ exists metadata,
        dict_lookup (agent_card agent) "metadata" = Some (PDict metadata)
        /\ dict_lookup metadata "tier" = None) ->
  RevenueRanking_score agent query tags = Return (success_rate agent * 10).
Proof.
  intros Hcard. unfold RevenueRanking_score.
  assert (Htier : agent_tier agent = Return (PStr "free")).
  { unfold agent_tier, dict_get. destruct Hcard as [->|(metadata & -> & Hm)].
    - reflexivity.
    - rewrite Hm. reflexivity. }
  rewrite Htier.
  change (Return (0 + 0 + success_rate agent * 10) = Return (success_rate agent * 10)).
  f_equal. lra.
Qed.

Lemma mapM_raises {A B} (f : A -> pyresult B) l a e :
  In a l -> f a = Raise e -> exists e', mapM f l = Raise e'.
Proof.
  induction l as [|b l IH]; intros Hin Ha; [contradiction|].
  rewrite mapM_cons. destruct Hin as [->|Hin].
  - rewrite Ha. eauto.
  - destruct (f b); [|eauto]. destruct (IH Hin Ha) as [e' ->]. eauto.
Qed.

(** X8: one agent whose card holds metadata that is not an object makes the
    hybrid and the revenue ranking of the whole list raise; the performance
    and the semantic ranking of the same list return. *)
Theorem malformed_metadata_breaks_ranking agents query tags a v :
  In a agents ->
  dict_lookup (agent_card a) "metadata" = Some v ->
  (forall d, v <> PDict d) ->
  (exists e, rank_agents use_embeddings cos_sim agents query tags "hybrid" = Raise e)
  /\ (exists e, rank_agents use_embeddings cos_sim agents query tags "revenue" = Raise e)
  /\ (exists ranked,
        rank_agents use_embeddings cos_sim agents query tags "performance" = Return ranked)
  /\ (exists ranked,
        rank_agents use_embeddings cos_sim agents query tags "semantic" = Return ranked).
Proof.
  intros Hin Hmeta Hnot.
  assert (Hrev : exists e, RevenueRanking_score a query tags = Raise e).
  { unfold RevenueRanking_score, agent_tier, dict_get. rewrite Hmeta.
    destruct v; try (eexists; reflexivity). exfalso. eapply Hnot. reflexivity. }
  destruct Hrev as [e Hrev].
  assert (Hraise : forall ranker,
             (forall b, exists r, score use_embeddings cos_sim ranker b query tags = r) ->
             score use_embeddings cos_sim ranker a query tags = Raise e ->
             exists e',
               mapM (fun agent => s ← score use_embeddings cos_sim ranker agent query tags;
                                  mret (agent, s)) agents ≫=
               (fun scored => mret (map fst (sort_desc scored))) = Raise e').
  { intros ranker _ Hs.
    destruct (mapM_raises
                (fun agent => s ← score use_embeddings cos_sim ranker agent query tags;
                              mret (agent, s)) agents a e Hin) as [e' He'].
    - rewrite Hs. reflexivity.
    - rewrite He'. eauto. }
  assert (Hok : forall ranker,
             (forall b, exists s, score use_embeddings cos_sim ranker b query tags = Return s) ->
             exists ranked,
               mapM (fun agent => s ← score use_embeddings cos_sim ranker agent query tags;
                                  mret (agent, s)) agents ≫=
               (fun scored => mret (map fst (sort_desc scored))) = Return ranked).
  { intros ranker Hall.
    destruct (mapM_all_Return
                (fun agent => s ← score use_embeddings cos_sim ranker agent query tags;
                              mret (agent, s)) agents) as [scored Hs].
    - apply List.Forall_forall. intros b _. destruct (Hall b) as [sb Hsb].
      rewrite Hsb. simpl. eauto.
    - rewrite Hs. simpl. eauto. }
  repeat split.
  - apply (Hraise HybridRanking); [eauto|].
    cbn [score]. unfold HybridRanking_score. rewrite Hrev. reflexivity.
  - apply (Hraise RevenueRanking); [eauto|]. exact Hrev.
  - apply (Hok PerformanceRanking). intros b. cbn [score]. eauto.
  - apply (Hok SemanticRanking). intros b. cbn [score]. eauto.
Qed.

(** X9: a ranking that returns is a reordering of the agents it was given:
    no agent is dropped, added or repeated. *)
Theorem rank_agents_is_permutation agents query tags strategy ranked :
  rank_agents use_embeddings cos_sim agents query tags strategy = Return ranked ->
  Permutation agents ranked /\ length ranked = length agents.
Proof.
  intros Hrank. apply rank_agents_perm in Hrank. split; [assumption|].
  symmetry. apply Permutation_length. assumption.
Qed.

Lemma insert_desc_sorted {A} (x : A * R) l :
  Sorted.StronglySorted (fun p q => snd q <= snd p) l ->
  Sorted.StronglySorted (fun p q => snd q <= snd p) (insert_desc x l).
Proof.
  induction 1 as [|y l Hs IH Hall]; simpl; [repeat constructor|].
  destruct (Rlt_dec (snd x) (snd y)) as [Hlt|Hge].
  - constructor; [assumption|].
    apply List.Forall_forall. intros z Hz.
    apply (Permutation_in _ (insert_desc_perm x l)) in Hz. destruct Hz as [<-|Hz].
    + lra.
    + revert z Hz. apply List.Forall_forall. assumption.
  - constructor; [constructor; assumption|].
    constructor; [lra|].
    eapply List.Forall_impl; [|exact Hall]. simpl. intros z Hz. lra.
Qed.

Lemma sort_desc_sorted {A} (l : list (A * R)) :
  Sorted.StronglySorted (fun p q => snd q <= snd p) (sort_desc l).
Proof.
  induction l as [|x l IH]; simpl; [constructor|]. apply insert_desc_sorted, IH.
Qed.

(** X10: in a ranking that returns, the scores never increase from one
    agent to any later one: the best score is first. *)
Theorem rank_agents_descending agents query tags strategy ranked :
  rank_agents use_embeddings cos_sim agents query tags strategy = Return ranked ->
  let ranker := assoc_get strategies strategy HybridRanking in
  Sorted.StronglySorted
    (fun a b => exists sa sb,
       score use_embeddings cos_sim ranker a query tags = Return sa
       /\ score use_embeddings cos_sim ranker b query tags = Return sb
       /\ sb <= sa) ranked.
Proof.
  intros Hrank. cbv zeta. unfold rank_agents in Hrank.
  set (ranker := assoc_get strategies strategy HybridRanking) in *.
  destruct (mapM _ agents) as [scored|] eqn:Hm; simpl in Hrank; [|discriminate].
  apply Return_inj in Hrank. subst ranked.
  apply mapM_Return in Hm.
  assert (Hscored : Forall (fun p => score use_embeddings cos_sim ranker (fst p) query tags
                                     = Return (snd p)) scored).
  { induction Hm as [|a [a' v] l l' Ha _ IH]; constructor; [|exact IH].
    destruct (score _ _ ranker a _ _) eqn:Hs; simpl in Ha; [|discriminate].
    apply Return_inj in Ha. injection Ha as <- <-. exact Hs. }
  assert (Hsorted_scores : Forall (fun p => score use_embeddings cos_sim ranker (fst p) query tags
                                     = Return (snd p)) (sort_desc scored)).
  { apply List.Forall_forall. intros p Hp.
    apply (Permutation_in _ (sort_desc_perm scored)) in Hp.
    revert p Hp. apply List.Forall_forall. assumption. }
  pose proof (sort_desc_sorted scored) as Hsorted.
  induction Hsorted as [|p l Hs IH Hall]; [constructor|].
  apply List.Forall_cons_iff in Hsorted_scores as [Hp Hl].
  simpl. constructor; [apply IH; assumption|].
  apply List.Forall_forall. intros b Hb. apply in_map_iff in Hb as (q & <- & Hq).
  exists (snd p), (snd q). split; [assumption|]. split.
  - revert q Hq. apply List.Forall_forall. assumption.
  - revert q Hq. apply List.Forall_forall. assumption.
Qed.

End RankingMore.

Lemma performance_score_in_range_witness :
  (0 <= Ranking.PerformanceRanking_score bob "q" None <= 100)%R.
Proof. apply performance_score_in_range. simpl. lra. Defined.

Lemma keyword_score_no_words_witness :
  Ranking.score_with_keywords alice "   " = 0%R.
Proof. apply keyword_score_no_words. reflexivity. Defined.

Lemma plain_card_revenue a query tags :
  agent_card a = [] -> exists v, Ranking.RevenueRanking_score a query tags = Return v.
Proof.
  intros Hcard. eexists.
  unfold Ranking.RevenueRanking_score, Ranking.agent_tier, dict_get.
  rewrite Hcard. reflexivity.
Qed.

Lemma alice_bob_ranked strategy :
  exists ranked,
    Ranking.rank_agents false (fun _ _ => 0%R) [alice; bob] "weather" None strategy
    = Return ranked.
Proof.
  apply rank_agents_returns.
  repeat constructor; apply plain_card_revenue; reflexivity.
Qed.

Lemma hybrid_score_in_range_witness :
  exists v,
    Ranking.HybridRanking_score false (fun _ _ => 0%R) bob "weather" None = Return v
    /\ (0 <= v <= 100)%R.
Proof.
  eexists. split; [reflexivity|].
  eapply (hybrid_score_in_range (fun _ _ => 0%R) bob "weather" None).
  - simpl. lra.
  - reflexivity.
Defined.

Lemma revenue_score_in_range_witness :
  exists v,
    Ranking.RevenueRanking_score bob "weather" None = Return v /\ (0 <= v <= 110)%R.
Proof.
  eexists. split; [reflexivity|].
  eapply (revenue_score_in_range bob "weather" None).
  - simpl. lra.
  - reflexivity.
Defined.

Lemma revenue_score_without_tier_witness :
  Ranking.RevenueRanking_score bob "weather" None = Return (success_rate bob * 10)%R.
Proof. apply revenue_score_without_tier. left. reflexivity. Defined.

Lemma malformed_metadata_breaks_ranking_witness :
  (exists e, Ranking.rank_agents false (fun _ _ => 0%R) [alice; mallory] "weather" None
               "hybrid" = Raise e)
  /\ (exists ranked, Ranking.rank_agents false (fun _ _ => 0%R) [alice; mallory] "weather"
                       None "performance" = Return ranked).
Proof.
  destruct (malformed_metadata_breaks_ranking false (fun _ _ => 0%R)
              [alice; mallory] "weather" None mallory PNone) as (Hh & _ & Hp & _).
  - right. left. reflexivity.
  - reflexivity.
  - intros d. discriminate.
  - split; assumption.
Defined.

Lemma rank_agents_is_permutation_witness :
  exists ranked,
    Ranking.rank_agents false (fun _ _ => 0%R) [alice; bob] "weather" None "hybrid"
    = Return ranked
    /\ Permutation [alice; bob] ranked.
Proof.
  destruct (alice_bob_ranked "hybrid") as [ranked Hranked].
  exists ranked. split; [assumption|].
  apply (rank_agents_is_permutation false (fun _ _ => 0%R) [alice; bob] "weather" None
           "hybrid" ranked Hranked).
Defined.

Lemma rank_agents_descending_witness :
  exists ranked,
    Ranking.rank_agents false (fun _ _ => 0%R) [alice; bob] "weather" None "performance"
    = Return ranked
    /\ Sorted.StronglySorted
         (fun a b => exists sa sb,
            Ranking.score false (fun _ _ => 0%R) Ranking.PerformanceRanking a "weather" None
              = Return sa
            /\ Ranking.score false (fun _ _ => 0%R) Ranking.PerformanceRanking b "weather" None
              = Return sb
            /\ (sb <= sa)%R) ranked.
Proof.
  destruct (alice_bob_ranked "performance") as [ranked Hranked].
  exists ranked. split; [assumption|].
  apply (rank_agents_descending false (fun _ _ => 0%R) [alice; bob] "weather" None
           "performance" ranked Hranked).
Defined.

(** ** Orchestration *)

Section OrchestratorMore.

Import Orchestrator.
Local Open Scope R_scope.

Variable use_embeddings : bool.
Variable cos_sim : string -> string -> R.

Lemma filter_none {A} (p : A -> bool) l :
  (forall a, In a l -> p a = false) -> List.filter p l = [].
Proof.
  induction l as [|a l IH]; intros Hall; [reflexivity|]. simpl.
  rewrite (Hall a) by (left; reflexivity). apply IH. intros b Hb. apply Hall. now right.
Qed.

(** X11: when no row is active, or when tags are requested and no active row
    carries any of them, the request ends with the 404 "not found" error in
    every world, and the store is left as it was. *)
Theorem no_candidate_is_not_found w request db :
  (forall a, In a (rows db) -> is_active a = false)
  \/ (exists tags, skill_tags request = Some tags /\ tags <> []
        /\ forall a, In a (rows db) -> is_active a = true -> has_any_tag tags a = false) ->
  orchestrate use_embeddings cos_sim w request db = (Raise (HTTPException 404 "No agents found matching criteria"), db).
Proof.
  intros Hnone. apply orchestrate_no_candidates. unfold candidates, discover.
  destruct Hnone as [Hinactive|(tags & Htags & Hne & Hnotag)].
  - rewrite (filter_none is_active (rows db) Hinactive).
    destruct (skill_tags request) as [[|t l]|]; reflexivity.
  - rewrite Htags. destruct tags as [|t l]; [contradiction|].
    apply filter_none. intros a Ha. apply filter_In in Ha as [Ha Hact].
    apply Hnotag; assumption.
Qed.

(** X12: [call_agent_http] never raises. It returns a result that names the
    agent; the status is ["success"] with the measured latency when the call
    met no exception, and ["error"] with latency 0, no payload and the
    message of the exception when it met one. *)
Theorem call_agent_http_never_raises w i agent query :
  exists r,
    call_agent_http w i agent query = Return r
    /\ res_agent_id r = Some (agent_id agent)
    /\ res_agent_name r = Some (name agent)
    /\ match raised_by (http_post w i (query_url agent) query) with
       | None =>
           res_status r = "success"%string
           /\ res_latency_ms r = Some (call_latency_ms w i)
           /\ res_error r = None
       | Some e =>
           res_status r = "error"%string
           /\ res_latency_ms r = Some 0
           /\ res_error r = Some (exn_str e)
           /\ res_result r = None
       end.
Proof. apply call_agent_http_result. Qed.

Lemma has_any_tag_true tags a :
  has_any_tag tags a = true <-> exists tag, In tag tags /\ In tag (skills_tags a).
Proof.
  unfold has_any_tag. rewrite existsb_exists. split.
  - intros (tag & Htag & Hex). apply existsb_exists in Hex as (t & Ht & Heq).
    apply String.eqb_eq in Heq. subst t. eauto.
  - intros (tag & Htag & Hin). exists tag. split; [assumption|].
    apply existsb_exists. exists tag. split; [assumption|apply String.eqb_refl].
Qed.

(** X13: with requested tags, the discovered agents are exactly the given
    agents that carry at least one requested tag; without tags, or with an
    empty tag list, they are all the given agents. *)
Theorem discover_membership all_agents request a :
  In a (discover all_agents request) <->
  In a all_agents
  /\ match skill_tags request with
     | Some ((_ :: _) as tags) => exists tag, In tag tags /\ In tag (skills_tags a)
     | _ => True
     end.
Proof.
  unfold discover. destruct (skill_tags request) as [[|t l]|]; try tauto.
  rewrite filter_In, has_any_tag_true. reflexivity.
Qed.

(** X14: for every request, also one with a negative bound, the selection
    has no two agents with the same id and holds only candidates. *)
Theorem selection_is_part_of_candidates matching ranked request :
  List.NoDup (map agent_id matching) ->
  Permutation matching ranked ->
  List.NoDup (map agent_id (select_agents matching ranked request))
  /\ forall a, In a (select_agents matching ranked request) -> In a matching.
Proof.
  intros Hnd Hperm. split.
  - apply select_agents_NoDup; assumption.
  - intros a Ha. exact (select_agents_incl cos_sim matching ranked request a Hperm Ha).
Qed.

(** X15: without preferred ids (none given, or an empty list) and with a
    bound that is not negative, the selection is the first [max_agents]
    agents of the ranking. *)
Theorem selection_without_preferences matching ranked request :
  prefer_agent_ids request = None \/ prefer_agent_ids request = Some [] ->
  (0 <= max_agents request)%Z ->
  select_agents matching ranked request = firstn (Z.to_nat (max_agents request)) ranked
  /\ length (select_agents matching ranked request)
     = Nat.min (Z.to_nat (max_agents request)) (length ranked).
Proof.
  intros Hpref Hn.
  assert (Hsel : select_agents matching ranked request
                 = firstn (Z.to_nat (max_agents request)) ranked).
  { unfold select_agents. destruct Hpref as [-> | ->]; apply slice_to_nonneg; assumption. }
  split; [assumption|]. rewrite Hsel. apply length_firstn.
Qed.


Lemma find_row_id a updated b : find_row a updated = Some b -> agent_id b = agent_id a.
Proof.
  induction updated as [|c l IH]; simpl; [discriminate|].
  destruct (String.eqb_spec (agent_id a) (agent_id c)) as [E|_]; [|exact IH].
  intros H. injection H as <-. congruence.
Qed.

Lemma write_back_ids updated table :
  map agent_id (write_back updated table) = map agent_id table.
Proof.
  unfold write_back. rewrite map_map. apply map_ext. intros a.
  destruct (find_row a updated) as [b|] eqn:Hb; [|reflexivity].
  apply (find_row_id a updated b Hb).
Qed.

(** X17: whatever the world and however the request ends, the store holds
    the same agent ids in the same order afterwards: a request never adds,
    removes or renames a row. *)
Theorem orchestrate_keeps_agent_ids w request db :
  map agent_id (rows (snd (orchestrate use_embeddings cos_sim w request db))) = map agent_id (rows db).
Proof.
  assert (Hc : candidates request db = [] \/ candidates request db <> []).
  { destruct (candidates request db); [left; reflexivity|right; discriminate]. }
  destruct Hc as [Hc|Hne].
  { rewrite orchestrate_no_candidates by assumption. reflexivity. }
  destruct (Ranking.rank_agents use_embeddings cos_sim (candidates request db)
              (query request) (skill_tags request) "hybrid") as [ranked|e] eqn:Hrank.
  2:{ rewrite (orchestrate_rank_raises _ _ _ _ _ e) by assumption. reflexivity. }
  rewrite (orchestrate_phases _ _ w request db ranked Hne Hrank). cbv zeta.
  destruct (commit_metrics w); [|reflexivity].
  destruct (commit_log w); [|apply write_back_ids].
  destruct (mapM selected_agent_entry _); apply write_back_ids.
Qed.

Lemma find_row_absent a updated :
  ~ In (agent_id a) (map agent_id updated) -> find_row a updated = None.
Proof.
  induction updated as [|c l IH]; intros Hnot; [reflexivity|]. simpl.
  destruct (String.eqb_spec (agent_id a) (agent_id c)) as [E|_].
  - exfalso. apply Hnot. left. congruence.
  - apply IH. intros Hin. apply Hnot. right. assumption.
Qed.

Lemma update_all_ids selected results :
  length selected = length results ->
  map agent_id (update_all selected results) = map agent_id selected.
Proof.
  revert results. induction selected as [|a l IH]; intros [|r rs] Hlen;
    try discriminate; [reflexivity|].
  simpl. f_equal. apply IH. simpl in Hlen. lia.
Qed.

(** X18: after a request that returns a response, a row whose agent is not
    among the selected agents of the response is in the store unchanged. *)
Theorem unselected_rows_unchanged w request db resp db' a :
  orchestrate use_embeddings cos_sim w request db = (Return resp, db') ->
  In a (rows db) ->
  ~ In (agent_id a) (map sel_agent_id (resp_selected_agents resp)) ->
  In a (rows db').
Proof.
  intros Hrun Hin Hnot.
  destruct (orchestrate_Return_inv _ _ _ _ _ _ _ Hrun)
    as (ranked & _ & _ & _ & _ & Hentries & _ & Hrows & _).
  cbv zeta in *. rewrite Hrows. unfold write_back. apply in_map_iff.
  exists a. split; [|assumption].
  rewrite find_row_absent; [reflexivity|].
  rewrite update_all_ids by (symmetry; apply length_dispatch).
  rewrite <- (entries_ids _ _ Hentries). assumption.
Qed.

(** X19: a request that returns a response appends exactly one entry to the
    log: it holds the query and the tags, the ids of the selected agents in
    the order of the response, the results of the response, the latency of
    the response, and a success flag that is true exactly when every result
    has status ["success"]. *)
Theorem orchestrate_logs_one_entry w request db resp db' :
  orchestrate use_embeddings cos_sim w request db = (Return resp, db') ->
  exists entry,
    logs db' = logs db ++ [entry]
    /\ client_query entry = (query request, skill_tags request)
    /\ log_selected_agents entry = map sel_agent_id (resp_selected_agents resp)
    /\ log_results entry = resp_results resp
    /\ log_latency_ms entry = resp_latency_ms resp
    /\ (log_success entry = true <->
        forall r, In r (resp_results resp) -> res_status r = "success"%string).
Proof.
  intros Hrun.
  destruct (orchestrate_Return_inv _ _ _ _ _ _ _ Hrun)
    as (ranked & Hne & Hrank & Hcm & Hcl & Hentries & Hres & _ & Hlogs).
  cbv zeta in *. eexists. split; [exact Hlogs|].
  cbn [client_query log_selected_agents log_results log_latency_ms log_success log_entry].
  split; [reflexivity|]. split; [symmetry; apply entries_ids; assumption|].
  split; [symmetry; assumption|]. split.
  - rewrite (orchestrate_phases _ _ w request db ranked Hne Hrank) in Hrun.
    cbv zeta in Hrun. rewrite Hcm, Hcl, Hentries in Hrun.
    injection Hrun as <- _. reflexivity.
  - rewrite <- Hres, forallb_forall. split; intros H r Hr.
    + apply String.eqb_eq. apply H. assumption.
    + apply String.eqb_eq. apply H. assumption.
Qed.

Lemma gather_with_log_commit w agents query :
  gather (with_log_commit w) agents query = gather w agents query.
Proof.
  unfold gather. generalize 0%nat.
  induction agents as [|a l IH]; intros i; [reflexivity|].
  simpl. rewrite IH. reflexivity.
Qed.

(** X20: when the commit of the metrics raises, nothing is stored; when it
    succeeds and only the commit of the log entry raises, the rows are stored
    with the new metrics, as in the run where that commit succeeds, and the
    log is left as it was. *)
Theorem failed_commit_store w request db ranked e :
  candidates request db <> [] ->
  Ranking.rank_agents use_embeddings cos_sim (candidates request db)
    (query request) (skill_tags request) "hybrid" = Return ranked ->
  (commit_metrics w = Raise e -> orchestrate use_embeddings cos_sim w request db = (Raise e, db))
  /\ (commit_metrics w = Return tt -> commit_log w = Raise e ->
      rows (snd (orchestrate use_embeddings cos_sim w request db)) = rows (snd (orchestrate use_embeddings cos_sim (with_log_commit w) request db))
      /\ logs (snd (orchestrate use_embeddings cos_sim w request db)) = logs db
      /\ fst (orchestrate use_embeddings cos_sim w request db) = Raise e).
Proof.
  intros Hne Hrank. split.
  - intros Hcm. rewrite (orchestrate_phases _ _ w request db ranked Hne Hrank).
    cbv zeta. rewrite Hcm. reflexivity.
  - intros Hcm Hcl.
    rewrite (orchestrate_phases _ _ w request db ranked Hne Hrank).
    rewrite (orchestrate_phases _ _ (with_log_commit w) request db ranked Hne Hrank).
    cbv zeta.
    change (commit_metrics (with_log_commit w)) with (commit_metrics w).
    change (commit_log (with_log_commit w)) with (Return tt : pyresult unit).
    rewrite gather_with_log_commit.
    rewrite Hcm, Hcl. cbn [fst snd rows logs].
    destruct (mapM selected_agent_entry _); repeat split; reflexivity.
Qed.

End OrchestratorMore.

Lemma calm_run_on db :
  candidates (request_of None 3) db = [alice] ->
  exists resp db',
    Orchestrator.orchestrate false (fun _ _ => 0%R) calm_world (request_of None 3) db
    = (Return resp, db')
    /\ map Orchestrator.sel_agent_id (Orchestrator.resp_selected_agents resp)
       = ["alice"%string].
Proof.
  intros Hc.
  assert (Hne : candidates (request_of None 3) db <> []) by (rewrite Hc; discriminate).
  destruct (rank_agents_returns false (fun _ _ => 0%R)
              (candidates (request_of None 3) db) (query (request_of None 3))
              (skill_tags (request_of None 3)) "hybrid") as [ranked Hranked].
  { rewrite Hc. constructor; [apply alice_revenue|constructor]. }
  rewrite (orchestrate_phases false _ calm_world _ _ ranked Hne Hranked).
  cbv zeta. cbn [Orchestrator.commit_metrics Orchestrator.commit_log calm_world].
  assert (Hsel : Orchestrator.select_agents (candidates (request_of None 3) db)
                   ranked (request_of None 3) = [alice]).
  { apply rank_agents_perm in Hranked. rewrite Hc in *.
    apply Permutation_length_1_inv in Hranked. subst ranked. reflexivity. }
  rewrite Hsel. simpl. eauto.
Qed.

Lemma no_candidate_is_not_found_witness :
  Orchestrator.orchestrate false (fun _ _ => 0%R) calm_world hotel_request one_agent_db
  = (Raise (HTTPException 404 "No agents found matching criteria"), one_agent_db).
Proof.
  apply no_candidate_is_not_found. right.
  exists ["hotel"%string]. split; [reflexivity|]. split; [discriminate|].
  intros a [<-|[]] _. reflexivity.
Defined.

Lemma selection_is_part_of_candidates_witness :
  List.NoDup (map agent_id
                (Orchestrator.select_agents [alice; bob; carol] [carol; alice; bob]
                   (request_of (Some ["bob"%string]) (-1)))).
Proof.
  apply (selection_is_part_of_candidates (fun _ _ => 0%R)
           [alice; bob; carol] [carol; alice; bob]).
  - exact three_agents_NoDup.
  - apply Permutation_sym, (Permutation_cons_app [alice; bob] [] carol). reflexivity.
Defined.

Lemma selection_without_preferences_witness :
  Orchestrator.select_agents [alice; bob; carol] [carol; alice; bob] (request_of None 2)
  = firstn 2 [carol; alice; bob].
Proof.
  apply (selection_without_preferences [alice; bob; carol] [carol; alice; bob]
           (request_of None 2)).
  - left. reflexivity.
  - simpl. lia.
Defined.


Lemma unselected_rows_unchanged_witness :
  exists resp db',
    Orchestrator.orchestrate false (fun _ _ => 0%R) calm_world (request_of None 3) two_row_db
    = (Return resp, db')
    /\ In dave (Orchestrator.rows db').
Proof.
  destruct (calm_run_on two_row_db) as (resp & db' & Hrun & Hids); [reflexivity|].
  exists resp, db'. split; [assumption|].
  apply (unselected_rows_unchanged false (fun _ _ => 0%R) calm_world (request_of None 3)
           two_row_db resp db' dave Hrun).
  - right. left. reflexivity.
  - rewrite Hids. intros [E|[]]. discriminate E.
Defined.

Lemma orchestrate_logs_one_entry_witness :
  exists resp db' entry,
    Orchestrator.orchestrate false (fun _ _ => 0%R) calm_world (request_of None 3)
      one_agent_db = (Return resp, db')
    /\ Orchestrator.logs db' = Orchestrator.logs one_agent_db ++ [entry].
Proof.
  destruct (calm_run_on one_agent_db) as (resp & db' & Hrun & _); [reflexivity|].
  destruct (orchestrate_logs_one_entry false (fun _ _ => 0%R) calm_world
              (request_of None 3) one_agent_db resp db' Hrun) as (entry & Hlogs & _).
  exists resp, db', entry. split; assumption.
Defined.

Lemma failed_commit_store_witness :
  Orchestrator.orchestrate false (fun _ _ => 0%R) metrics_write_fails (request_of None 3)
    one_agent_db
  = (Raise (DatabaseError "database is locked"), one_agent_db).
Proof.
  destruct (one_agent_ranked None 3) as [ranked Hranked].
  apply (failed_commit_store false (fun _ _ => 0%R) metrics_write_fails (request_of None 3)
           one_agent_db ranked (DatabaseError "database is locked")).
  - discriminate.
  - exact Hranked.
  - reflexivity.
Defined.

(** ** The moving averages *)

Section MetricsMore.

Import Orchestrator.
Local Open Scope R_scope.

(** X21: the metrics update keeps the ranges of the record: a success rate
    within 0..1 stays within 0..1, an average latency that is not negative
    stays so, the number of calls grows by one, and the identity, address,
    tags and active flag of the agent are untouched. *)
Theorem update_metrics_keeps_ranges agent result :
  (0 <= success_rate agent <= 1 -> 0 <= success_rate (update_metrics agent result) <= 1)
  /\ (0 <= avg_latency_ms agent -> 0 <= avg_latency_ms (update_metrics agent result))
  /\ total_calls (update_metrics agent result) = (total_calls agent + 1)%Z
  /\ agent_id (update_metrics agent result) = agent_id agent
  /\ url (update_metrics agent result) = url agent
  /\ skills_tags (update_metrics agent result) = skills_tags agent
  /\ is_active (update_metrics agent result) = is_active agent
  /\ agent_card (update_metrics agent result) = agent_card agent.
Proof.
  unfold update_metrics. cbn [success_rate avg_latency_ms total_calls agent_id url
                              skills_tags is_active agent_card].
  split; [|split]; [| |repeat split].
  - intros Hs. destruct (String.eqb (res_status result) "success"); lra.
  - intros Hl. destruct (res_latency_ms result) as [l|]; [|assumption].
    destruct (Rlt_dec 0 l); [lra|assumption].
Qed.

Lemma after_results_cons agent r rs :
  after_results agent (r :: rs) = after_results (update_metrics agent r) rs.
Proof. reflexivity. Qed.

(** X22: the success rate converges geometrically. After n results that
    are all successes the distance of the success rate to 1 is 0.9^n times
    what it was; after n results that are all failures the success rate is
    0.9^n times what it was; in both cases the number of calls grew by n. *)
Theorem success_rate_after_streak agent results :
  (forallb succeeded results = true ->
   1 - success_rate (after_results agent results)
   = (1 - success_rate agent) * 0.9 ^ length results)
  /\ (forallb (fun r => negb (succeeded r)) results = true ->
      success_rate (after_results agent results)
      = success_rate agent * 0.9 ^ length results)
  /\ total_calls (after_results agent results)
     = (total_calls agent + Z.of_nat (length results))%Z.
Proof.
  revert agent. induction results as [|r rs IH]; intros agent.
  - unfold after_results. simpl. repeat split; try lra. lia.
  - rewrite after_results_cons. destruct (IH (update_metrics agent r)) as (IHs & IHf & IHc).
    cbn [forallb length]. repeat split.
    + intros H. apply andb_true_iff in H as [Hr Hrs]. rewrite (IHs Hrs).
      unfold succeeded in Hr. unfold update_metrics. cbn [success_rate]. rewrite Hr.
      simpl. lra.
    + intros H. apply andb_true_iff in H as [Hr Hrs]. rewrite (IHf Hrs).
      apply negb_true_iff in Hr. unfold succeeded in Hr.
      unfold update_metrics. cbn [success_rate]. rewrite Hr. simpl. lra.
    + rewrite IHc. unfold update_metrics. cbn [total_calls]. lia.
Qed.

End MetricsMore.

(** ** The response *)

Section ResponseMore.

Import Orchestrator.
Local Open Scope string_scope.

Variable use_embeddings : bool.
Variable cos_sim : string -> string -> R.

(** X23: in a response, the results pair off with the selected agents: there
    is one result per selected agent, in the same order, and each result
    carries the id and the name of its agent. *)
Theorem results_match_selected_agents w request db resp db' :
  orchestrate use_embeddings cos_sim w request db = (Return resp, db') ->
  Forall2 (fun entry r =>
             res_agent_id r = Some (sel_agent_id entry)
             /\ res_agent_name r = Some (sel_name entry))
          (resp_selected_agents resp) (resp_results resp).
Proof.
  intros Hrun.
  destruct (orchestrate_Return_inv _ _ _ _ _ _ _ Hrun)
    as (ranked & _ & _ & _ & _ & Hentries & Hres & _).
  cbv zeta in *.
  set (selected := select_agents (candidates request db) ranked request) in *.
  apply mapM_Return in Hentries. rewrite Hres.
  apply Forall2_same_length_lookup_2.
  - rewrite length_dispatch. symmetry. eapply Forall2_length. exact Hentries.
  - intros j entry r Hentry Hr.
    destruct (Forall2_lookup_r _ _ _ j entry Hentries Hentry) as (a & Ha & Hae).
    rewrite (lookup_dispatch w selected (query request) j a Ha) in Hr.
    injection Hr as <-.
    destruct (call_agent_http_result w j a (query request)) as (r & Hcall & Hid & Hname & _).
    rewrite Hcall. cbn [format_result]. rewrite Hid, Hname.
    unfold selected_agent_entry in Hae.
    destruct (skill_names (agent_card a)); simpl in Hae; [|discriminate].
    apply Return_inj in Hae. subst entry. split; reflexivity.
Qed.

Lemma join_cons_prefix sep p rest : String.prefix p (join sep (p :: rest)) = true.
Proof.
  destruct rest as [|q rest]; cbn [join].
  - rewrite <- (append_nil_r p) at 2. apply prefix_append.
  - apply prefix_append.
Qed.

Lemma prefix_trans_append p q s :
  String.prefix (p ++ q) s = true -> String.prefix p s = true.
Proof.
  revert s. induction p as [|c p IH]; intros s; [destruct s; reflexivity|].
  rewrite append_cons. destruct s as [|d s]; simpl; [discriminate|].
  destruct (ascii_dec c d); [apply IH|discriminate].
Qed.

(** X24: the summary is the fixed sentence "No agents successfully
    responded to your query." exactly when no result has status
    ["success"]; otherwise it starts with the line "Query: " followed by the
    query. *)
Theorem generate_summary_cases query results :
  (forallb (fun r => negb (succeeded r)) results = true ->
   generate_summary query results = "No agents successfully responded to your query.")
  /\ (existsb succeeded results = true ->
      String.prefix ("Query: " ++ query) (generate_summary query results) = true
      /\ generate_summary query results
         <> "No agents successfully responded to your query.").
Proof.
  unfold generate_summary, succeeded. split.
  - intros Hnone.
    assert (Hf : List.filter (fun r => String.eqb (res_status r) "success") results = []).
    { apply filter_none. intros r Hr. rewrite forallb_forall in Hnone.
      apply negb_true_iff. apply Hnone. assumption. }
    rewrite Hf. reflexivity.
  - intros Hsome. apply existsb_exists in Hsome as (r & Hr & Hs).
    destruct (List.filter (fun r => String.eqb (res_status r) "success") results)
      as [|r0 l] eqn:Hf.
    { assert (Hin : In r (List.filter (fun r => String.eqb (res_status r) "success") results))
        by (apply filter_In; split; assumption).
      rewrite Hf in Hin. contradiction. }
    assert (Hpre : String.prefix ("Query: " ++ query)
                     (join nl ((["Query: " ++ query ++ nl]
                                ++ ["Agents responded: "
                                     ++ str_of_int (Z.of_nat (length (r0 :: l))) ++ "/"
                                     ++ str_of_int (Z.of_nat (length results)) ++ nl])
                               ++ map (fun r1 =>
                                         nl ++ match res_agent_name r1 with
                                               | Some n => n
                                               | None => "Unknown"
                                               end ++ ":") (r0 :: l))) = true).
    { apply (prefix_trans_append _ nl). rewrite append_assoc.
      cbn [app]. apply join_cons_prefix. }
    split; [exact Hpre|].
    intros E. rewrite E in Hpre. rewrite append_cons in Hpre. simpl in Hpre.
    discriminate Hpre.
Qed.

End ResponseMore.

Lemma results_match_selected_agents_witness :
  exists resp db',
    Orchestrator.orchestrate false (fun _ _ => 0%R) calm_world (request_of None 3)
      one_agent_db = (Return resp, db')
    /\ length (Orchestrator.resp_results resp)
       = length (Orchestrator.resp_selected_agents resp).
Proof.
  destruct (calm_run_on one_agent_db) as (resp & db' & Hrun & _); [reflexivity|].
  exists resp, db'. split; [assumption|].
  symmetry. eapply Forall2_length.
  apply (results_match_selected_agents false (fun _ _ => 0%R) calm_world
           (request_of None 3) one_agent_db resp db' Hrun).
Defined.

(** ** Identity *)

Section IdentityMore.

Import Crypto Identity.
Local Open Scope string_scope.

Variable lib : Library.

(** The text of the key in a generated DID. *)
Lemma generated_key_text (private_key : PrivateKey lib) :
  exists u p,
    fst (generate_keypair lib private_key) = did_prefix ++ u
    /\ Base64.urlsafe_b64encode (public_bytes lib (public_key lib private_key))
       = u ++ repeat_char "=" p
    /\ (p <= 2)%nat
    /\ all_chars url_ok u = true.
Proof.
  destruct (urlsafe_b64encode_shape (public_bytes lib (public_key lib private_key)))
    as (u & p & Henc & Hp & _ & Hok & _).
  exists u, p. unfold generate_keypair. cbn [fst]. rewrite Henc.
  unfold Base64.pad in *.
  rewrite rstrip_append_repeat.
  - repeat split; assumption.
  - apply (all_chars_impl url_ok); [|assumption]. intros c Hc. unfold url_ok in Hc.
    split_andb. assumption.
Qed.

(** X25: a generated DID is the prefix ["did:poros:ed25519:"] followed by
    the url-safe base64 text of the public key without its pads: the key
    segment holds no ['='] and no [':'], only ASCII characters, and is the
    encoded key up to at most two pads. *)
Theorem generated_did_format (private_key : PrivateKey lib) :
  exists key_segment pads,
    fst (generate_keypair lib private_key) = did_prefix ++ key_segment
    /\ startswith (fst (generate_keypair lib private_key)) did_prefix = true
    /\ all_chars url_ok key_segment = true
    /\ (pads <= 2)%nat
    /\ Base64.urlsafe_b64encode (public_bytes lib (public_key lib private_key))
       = key_segment ++ repeat_char "=" pads.
Proof.
  destruct (generated_key_text private_key) as (u & p & Hdid & Henc & Hp & Hok).
  exists u, p. rewrite Hdid. repeat split; try assumption.
  apply startswith_append.
Qed.

(** X26: [extract_public_key_from_did] raises [ValueError] for a DID without
    the prefix; for a generated DID it returns the key segment, which holds
    no pad, and that segment, padded as [verify_agent_card] pads it, decodes
    to the raw public key under a library that keeps the laws. *)
Theorem extract_public_key_cases (private_key : PrivateKey lib) did :
  (startswith did did_prefix = false ->
   extract_public_key_from_did did = Raise (ValueError "Invalid Poros DID format"))
  /\ (exists key_segment,
        extract_public_key_from_did (fst (generate_keypair lib private_key))
        = Return key_segment
        /\ fst (generate_keypair lib private_key) = did_prefix ++ key_segment
        /\ all_chars (fun c => negb (Ascii.eqb c "=")) key_segment = true)
  /\ (Laws lib ->
      Base64.urlsafe_b64decode (a2b_base64 lib)
        (padded_key_segment (fst (generate_keypair lib private_key)))
      = Return (public_bytes lib (public_key lib private_key))).
Proof.
  split; [|split].
  - intros Hpre. unfold extract_public_key_from_did. rewrite Hpre. reflexivity.
  - destruct (generated_key_text private_key) as (u & p & Hdid & _ & _ & Hok).
    exists u. unfold extract_public_key_from_did. rewrite Hdid.
    rewrite startswith_append. cbn [negb].
    assert (Hnocolon : all_chars (fun a => negb (Ascii.eqb a ":")) u = true).
    { apply (all_chars_impl url_ok); [|assumption]. intros c Hc. unfold url_ok in Hc.
      split_andb. assumption. }
    rewrite (last_split_did u Hnocolon). repeat split.
    apply (all_chars_impl url_ok); [|assumption]. intros c Hc. unfold url_ok in Hc.
    split_andb. assumption.
  - intros laws. unfold generate_keypair. cbn [fst].
    rewrite padded_generated_key. apply (urlsafe_b64decode_b64encode lib laws).
Qed.

(** Signing and verifying with a generated key, as the endpoints need it. *)
Lemma sign_then_verify (laws : Laws lib) (private_key : PrivateKey lib) record canonical_json :
  Json.dumps_canonical record = Return canonical_json ->
  let signature :=
    Base64.b64encode (sign lib private_key (Json.utf8_encode canonical_json)) in
  sign_agent_card lib record (snd (generate_keypair lib private_key)) = Return signature
  /\ verify_agent_card lib record signature (fst (generate_keypair lib private_key))
     = Return true.
Proof.
  intros Hjson signature. subst signature. split.
  - unfold sign_agent_card, generate_keypair. cbn [snd].
    rewrite Hjson. simpl. rewrite (load_private_pem lib laws). reflexivity.
  - unfold verify_agent_card. rewrite verify_try_steps.
    unfold generate_keypair. cbn [fst].
    rewrite startswith_append. cbn [negb].
    rewrite padded_generated_key.
    rewrite (urlsafe_b64decode_b64encode lib laws). simpl.
    rewrite (from_public_bytes_raw lib laws). simpl.
    rewrite Hjson. simpl.
    rewrite (b64decode_b64encode lib laws). simpl.
    rewrite (verify_sign lib laws). reflexivity.
Qed.

Lemma dict_without_with_signature unsigned signature :
  dict_lookup unsigned "signature" = None ->
  dict_without (IdentityApi.with_signature unsigned signature) "signature" = unsigned
  /\ dict_lookup (IdentityApi.with_signature unsigned signature) "signature"
     = Some (PStr signature).
Proof.
  unfold IdentityApi.with_signature, dict_without.
  induction unsigned as [|[k v] d IH]; [intros _; split; reflexivity|].
  cbn [dict_lookup app List.filter fst].
  destruct (k =? "signature"); [discriminate|].
  intros Hno. destruct (IH Hno) as [IH1 IH2]. cbn [negb]. rewrite IH1. split; [reflexivity|].
  exact IH2.
Qed.

Lemma dict_lookup_without d key : dict_lookup (dict_without d key) key = None.
Proof.
  unfold dict_without. induction d as [|[k v] d IH]; [reflexivity|].
  cbn [List.filter fst]. destruct (k =? key) eqn:Hk; cbn [negb]; [exact IH|].
  cbn [dict_lookup]. rewrite Hk. exact IH.
Qed.

(** X27: the sign endpoint fails only with HTTP 400, whatever was raised
    underneath; when it returns, the signed card is the card without any
    earlier ['signature'] followed by the new one: its ['signature'] is the
    returned signature, and stripping it gives the card that was signed. *)
Theorem sign_endpoint_result agent_card private_key_pem :
  (forall e, IdentityApi.sign_agent_card lib agent_card private_key_pem = Raise e ->
             exists detail, e = HTTPException 400 detail)
  /\ (forall signature signed_card,
        IdentityApi.sign_agent_card lib agent_card private_key_pem
        = Return (signature, signed_card) ->
        Identity.sign_agent_card lib (dict_without agent_card "signature") private_key_pem
        = Return signature
        /\ dict_lookup signed_card "signature" = Some (PStr signature)
        /\ dict_without signed_card "signature" = dict_without agent_card "signature").
Proof.
  unfold IdentityApi.sign_agent_card.
  destruct (Identity.sign_agent_card lib (dict_without agent_card "signature")
              private_key_pem) as [sg|e0]; simpl.
  - split; [intros e H; discriminate H|].
    intros signature signed_card H. apply Return_inj in H. injection H as <- <-.
    destruct (dict_without_with_signature (dict_without agent_card "signature") sg
                (dict_lookup_without agent_card "signature")) as [H1 H2].
    repeat split; assumption.
  - split; [|intros signature signed_card H; discriminate H].
    intros e H. injection H as <-. eauto.
Qed.

(** X28: the endpoints compose. Under a library that keeps the laws, a card
    that serializes once its ['signature'] is stripped, signed by the sign
    endpoint with a generated key, is accepted by the verify endpoint with
    the generated DID, both as the signed card the endpoint returned and as
    the card that was submitted. *)
Theorem endpoints_round_trip (laws : Laws lib) (private_key : PrivateKey lib)
    agent_card canonical_json :
  Json.dumps_canonical (dict_without agent_card "signature") = Return canonical_json ->
  exists signature signed_card,
    IdentityApi.sign_agent_card lib agent_card (snd (generate_keypair lib private_key))
    = Return (signature, signed_card)
    /\ IdentityApi.verify_agent_card lib signed_card signature
         (fst (generate_keypair lib private_key)) = Return true
    /\ IdentityApi.verify_agent_card lib agent_card signature
         (fst (generate_keypair lib private_key)) = Return true.
Proof.
  intros Hjson.
  destruct (sign_then_verify laws private_key _ _ Hjson) as [Hsign Hverify].
  cbv zeta in *.
  set (signature := Base64.b64encode
                      (sign lib private_key (Json.utf8_encode canonical_json))) in *.
  exists signature, (IdentityApi.with_signature (dict_without agent_card "signature") signature).
  split; [|split].
  - unfold IdentityApi.sign_agent_card. rewrite Hsign. reflexivity.
  - unfold IdentityApi.verify_agent_card.
    destruct (dict_without_with_signature (dict_without agent_card "signature") signature
                (dict_lookup_without agent_card "signature")) as [H1 _].
    rewrite H1. exact Hverify.
  - unfold IdentityApi.verify_agent_card. exact Hverify.
Qed.

End IdentityMore.

Lemma endpoints_round_trip_witness :
  exists signature signed_card,
    IdentityApi.sign_agent_card Crypto.transparent signed_demo_card
      (snd (Identity.generate_keypair Crypto.transparent demo_key))
    = Return (signature, signed_card)
    /\ IdentityApi.verify_agent_card Crypto.transparent signed_card signature
         (fst (Identity.generate_keypair Crypto.transparent demo_key)) = Return true.
Proof.
  destruct (endpoints_round_trip Crypto.transparent transparent_laws demo_key
              signed_demo_card
              (match Json.dumps_canonical demo_card with
               | Return s => s
               | Raise _ => EmptyString
               end))
    as (signature & signed_card & Hsign & Hverify & _).
  - vm_compute. reflexivity.
  - exists signature, signed_card. split; assumption.
Defined.

(** ** The canonical text *)

Section CanonicalMore.

Import Crypto.
Local Open Scope string_scope.

Lemma ascii_compare_trans a b c :
  Ascii.compare a b = Lt -> Ascii.compare b c = Lt -> Ascii.compare a c = Lt.
Proof.
  unfold Ascii.compare. rewrite !N.compare_lt_iff. apply N.lt_trans.
Qed.

Lemma ascii_compare_refl c : Ascii.compare c c = Eq.
Proof. unfold Ascii.compare. apply N.compare_refl. Qed.

Lemma string_compare_trans s1 s2 s3 :
  String.compare s1 s2 = Lt -> String.compare s2 s3 = Lt -> String.compare s1 s3 = Lt.
Proof.
  revert s2 s3. induction s1 as [|a s1 IH]; intros [|b s2] [|c s3]; simpl;
    try discriminate; try reflexivity.
  destruct (Ascii.compare a b) eqn:Hab; try discriminate;
    destruct (Ascii.compare b c) eqn:Hbc; try discriminate; intros H1 H2.
  - apply Ascii.compare_eq_iff in Hab. apply Ascii.compare_eq_iff in Hbc. subst.
    rewrite ascii_compare_refl. eapply IH; eassumption.
  - apply Ascii.compare_eq_iff in Hab. subst. rewrite Hbc. reflexivity.
  - apply Ascii.compare_eq_iff in Hbc. subst. rewrite Hab. reflexivity.
  - rewrite (ascii_compare_trans a b c Hab Hbc). reflexivity.
Qed.

Lemma ltb_trans s1 s2 s3 :
  String.ltb s1 s2 = true -> String.ltb s2 s3 = true -> String.ltb s1 s3 = true.
Proof.
  unfold String.ltb. intros H1 H2.
  destruct (String.compare s1 s2) eqn:E1; try discriminate.
  destruct (String.compare s2 s3) eqn:E2; try discriminate.
  rewrite (string_compare_trans _ _ _ E1 E2). reflexivity.
Qed.

Lemma ltb_asym s1 s2 : String.ltb s1 s2 = true -> String.ltb s2 s1 = false.
Proof.
  unfold String.ltb. rewrite (String.compare_antisym s1 s2).
  destruct (String.compare s2 s1); simpl; congruence.
Qed.

Lemma ltb_total s1 s2 : s1 <> s2 -> String.ltb s2 s1 = false -> String.ltb s1 s2 = true.
Proof.
  unfold String.ltb. intros Hne Hfalse.
  destruct (String.compare s1 s2) eqn:E; [|reflexivity|].
  - apply String.compare_eq_iff in E. contradiction.
  - rewrite (String.compare_antisym s1 s2) in E.
    destruct (String.compare s2 s1); simpl in E; discriminate.
Qed.

Lemma insert_item_perm {V} (x : string * V) l : Permutation (Json.insert_item x l) (x :: l).
Proof.
  induction l as [|y l IH]; simpl; [reflexivity|].
  destruct (String.ltb (fst y) (fst x)); [|reflexivity].
  rewrite IH. apply perm_swap.
Qed.

Lemma sort_items_perm {V} (l : list (string * V)) : Permutation (Json.sort_items l) l.
Proof.
  induction l as [|x l IH]; simpl; [reflexivity|].
  rewrite insert_item_perm. now constructor.
Qed.

Lemma insert_item_sorted {V} (x : string * V) l :
  ~ In (fst x) (map fst l) ->
  Sorted.StronglySorted key_lt l -> Sorted.StronglySorted key_lt (Json.insert_item x l).
Proof.
  intros Hnew Hs. induction Hs as [|y l Hs IH Hall]; simpl; [repeat constructor|].
  destruct (String.ltb (fst y) (fst x)) eqn:Hyx.
  - constructor.
    + apply IH. intros Hin. apply Hnew. right. assumption.
    + apply List.Forall_forall. intros z Hz.
      apply (Permutation_in _ (insert_item_perm x l)) in Hz. destruct Hz as [<-|Hz].
      * exact Hyx.
      * revert z Hz. apply List.Forall_forall. assumption.
  - assert (Hxy : key_lt x y).
    { apply ltb_total; [|assumption]. intros E. apply Hnew. left. congruence. }
    constructor; [constructor; assumption|].
    constructor; [assumption|].
    eapply List.Forall_impl; [|exact Hall]. intros z Hz. unfold key_lt in *.
    eapply ltb_trans; eassumption.
Qed.

Lemma sort_items_sorted {V} (l : list (string * V)) :
  List.NoDup (map fst l) -> Sorted.StronglySorted key_lt (Json.sort_items l).
Proof.
  induction l as [|x l IH]; simpl; intros Hnd; [constructor|].
  apply List.NoDup_cons_iff in Hnd as [Hnew Hnd].
  apply insert_item_sorted; [|auto].
  intros Hin. apply Hnew.
  apply (Permutation_in _ (Permutation_map fst (sort_items_perm l))). assumption.
Qed.

(** Dicts with distinct keys that hold the same items have the same sorted
    items. *)
Lemma sort_items_unique {V} (l l' : list (string * V)) :
  List.NoDup (map fst l) -> Permutation l l' -> Json.sort_items l = Json.sort_items l'.
Proof.
  intros Hnd Hperm.
  apply (StronglySorted_unique_strong key_lt).
  - intros p q _ _ Hpq Hqp. unfold key_lt in *. apply ltb_asym in Hpq. congruence.
  - apply sort_items_sorted. assumption.
  - apply sort_items_sorted.
    eapply Permutation_NoDup; [apply Permutation_map; eassumption|assumption].
  - rewrite !sort_items_perm. assumption.
Qed.

Lemma mapM_perm {A B} (f : A -> pyresult B) l l' bs :
  Permutation l l' -> mapM f l = Return bs ->
  exists bs', mapM f l' = Return bs' /\ Permutation bs bs'.
Proof.
  intros Hperm. revert bs. induction Hperm as [|a l l' _ IH|a b l|l l' l'' _ IH1 _ IH2];
    intros bs.
  - intros H. exists bs. split; [assumption|reflexivity].
  - rewrite !mapM_cons. destruct (f a) as [fa|]; [|discriminate].
    destruct (mapM f l) as [bl|]; [|discriminate].
    intros H. apply Return_inj in H. subst bs.
    destruct (IH bl eq_refl) as (bl' & -> & Hp). exists (fa :: bl'). split; [reflexivity|].
    now constructor.
  - rewrite !mapM_cons.
    destruct (f a) as [fa|], (f b) as [fb|]; try discriminate.
    destruct (mapM f l) as [bl|]; [|discriminate].
    intros H. apply Return_inj in H. subst bs.
    eexists. split; [reflexivity|]. apply perm_swap.
  - intros H. destruct (IH1 bs H) as (bs1 & H1 & Hp1).
    destruct (IH2 bs1 H1) as (bs2 & H2 & Hp2). exists bs2. split; [assumption|].
    etransitivity; eassumption.
Qed.

Lemma encode_PDict d :
  Json.encode (PDict d) =
  items ← encode_items d;
  mret ("{" ++ join "," (map (fun kv => Json.encode_str (fst kv) ++ ":" ++ snd kv)
                             (Json.sort_items items)) ++ "}").
Proof.
  cbn [Json.encode].
  match goal with
  | |- ?f d ≫= _ = _ => assert (Hfix : forall d, f d = encode_items d)
  end.
  { clear d. induction d as [|[k v] d IH]; [reflexivity|].
    unfold encode_items. rewrite mapM_cons. fold (encode_items d). rewrite <- IH.
    cbn [snd fst]. destruct (Json.encode v); reflexivity. }
  rewrite Hfix. reflexivity.
Qed.

Lemma encode_items_keys d items :
  encode_items d = Return items -> map fst items = map fst d.
Proof.
  intros H. apply mapM_Return in H.
  induction H as [|[k v] [k' s] l l' Hkv _ IH]; [reflexivity|].
  simpl. f_equal; [|exact IH].
  cbn [snd fst] in Hkv. destruct (Json.encode v); simpl in Hkv; [|discriminate].
  apply Return_inj in Hkv. congruence.
Qed.

(** X29: the canonical text does not depend on the order in which the keys
    of the record were inserted: two records with distinct keys that hold
    the same items serialize to the same text, and so get the same signature
    and the same verdict. *)
Theorem canonical_text_ignores_key_order (lib : Library) record record' canonical_json :
  List.NoDup (map fst record) ->
  Permutation record record' ->
  Json.dumps_canonical record = Return canonical_json ->
  Json.dumps_canonical record' = Return canonical_json
  /\ (forall private_key_pem,
        Identity.sign_agent_card lib record' private_key_pem
        = Identity.sign_agent_card lib record private_key_pem)
  /\ (forall signature_b64 did,
        Identity.verify_agent_card lib record' signature_b64 did
        = Identity.verify_agent_card lib record signature_b64 did).
Proof.
  intros Hnd Hperm Hjson.
  assert (Hsame : Json.dumps_canonical record' = Return canonical_json).
  { unfold Json.dumps_canonical in *. rewrite encode_PDict in *.
    destruct (encode_items record) as [items|] eqn:Hitems; [|discriminate].
    destruct (mapM_perm _ _ _ _ Hperm Hitems) as (items' & Hitems' & Hp).
    fold (encode_items record') in Hitems'. rewrite Hitems'.
    simpl in *. rewrite <- (sort_items_unique items items'); [assumption| |assumption].
    rewrite (encode_items_keys _ _ Hitems). assumption. }
  split; [assumption|]. split.
  - intros pem. unfold Identity.sign_agent_card. rewrite Hsame, Hjson. reflexivity.
  - intros sg did. unfold Identity.verify_agent_card.
    rewrite !verify_try_steps, Hsame, Hjson. reflexivity.
Qed.

End CanonicalMore.

Lemma canonical_text_ignores_key_order_witness :
  Json.dumps_canonical (rev demo_card) = Json.dumps_canonical demo_card.
Proof.
  destruct (canonical_text_ignores_key_order Crypto.transparent demo_card (rev demo_card)
              (match Json.dumps_canonical demo_card with
               | Return s => s
               | Raise _ => EmptyString
               end)) as (H & _).
  - repeat constructor; simpl; intuition discriminate.
  - apply Permutation_rev.
  - vm_compute. reflexivity.
  - rewrite H. vm_compute. reflexivity.
Defined.
